(** * EEG post-recording pipeline: a shallow embedding of
      [post-recording/preprocessing.py], [post-recording/psd_analysis.py]
      and the time-limiting block of [post-recording/process_eeg.py].

    Conventions of the embedding.

    - A numpy [float64] is modelled by the rational number it denotes and
      an operation by its exact result in [Q]; the rounding of float64 to
      the nearest of its numbers is not modelled.  A quotient that numpy
      evaluates to [inf]/[nan], with a warning and without an exception,
      is the non-finite cell [None] of a ratio array: a quotient whose
      denominator is zero or whose magnitude reaches the overflow bound.
    - A Python exception is the [Raise] branch of [result].
    - Python dictionaries with string keys are [gmap string _]; the
      module-level literal [FREQ_BANDS] keeps its insertion order as an
      association list because the loop over it is ordered.
    - [mne.io.Raw] objects are mutable and live in a store indexed by
      references; [raw.copy()] allocates, [raw.filter(...)] updates in
      place.
    - Routines of MNE and autoreject whose numerical content is outside the
      repository (FIR design, ICA, the threshold calibration, the
      cross-validated AutoReject search, the Welch estimator) are fields
      of the records [Backend] and [Spectral], with the facts about them
      that the pipeline relies on; the parts of MNE that decide sample
      indices (fixed-length events, epoch extraction, cropping,
      amplitude-based dropping) are written out after the library's
      documented behaviour. *)

From Stdlib Require Import ZArith QArith Qround Qminmax Qabs Lqa Lia.
From stdpp Require Import gmap strings list.

Local Open Scope Q_scope.

(** ** Exceptions and results *)

Inductive exn : Type :=
| ValueError
| IndexError
| KeyError
| TypeError.

Inductive result (A : Type) : Type :=
| Ok (a : A)
| Raise (e : exn).
Arguments Ok {A} a.
Arguments Raise {A} e.

#[global] Instance result_ret : MRet result := fun A a => Ok a.
#[global] Instance result_bind : MBind result := fun A B k m =>
  match m with
  | Ok a => k a
  | Raise e => Raise e
  end.

Definition is_ok {A : Type} (m : result A) : bool :=
  match m with Ok _ => true | Raise _ => false end.

(** ** Arrays *)

(** A 2-D array indexed [epoch, channel]. *)
Abbreviation matrix := (list (list Q)).

(** A 3-D array [epoch, channel, frequency] together with its numpy shape;
    the shape is kept because it is still defined when an axis is empty. *)
Record ndarray3 : Type := mk_ndarray3 {
  n_epochs : nat;
  n_channels : nat;
  n_freqs : nat;
  cells : list (list (list Q))
}.

Definition shape_ok (a : ndarray3) : Prop :=
  length (cells a) = n_epochs a ∧
  Forall (fun ep =>
    length ep = n_channels a ∧ Forall (fun row => length row = n_freqs a) ep)
    (cells a).

(** ** psd_analysis.py *)

(** [FREQ_BANDS], psd_analysis.py lines 12-18. *)
Definition FREQ_BANDS : list (string * (Q * Q)) :=
  [ ("delta"%string, (5 # 10, 4));
    ("theta"%string, (4, 8));
    ("alpha"%string, (8, 13));
    ("beta"%string, (13, 30));
    ("gamma"%string, (30, 40)) ].

#[global] Instance Qle_decision (x y : Q) : Decision (x <= y) :=
  match Qlt_le_dec y x with
  | left Hlt => right (Qlt_not_le _ _ Hlt)
  | right Hle => left Hle
  end.

(** [(freqs >= fmin) & (freqs <= fmax)] *)
Definition freq_mask (freqs : list Q) (fmin fmax : Q) : list bool :=
  map (fun f => Qle_bool fmin f && Qle_bool f fmax) freqs.

(** Boolean-mask indexing along one axis: [row[mask]]. *)
Fixpoint select (mask : list bool) (row : list Q) : list Q :=
  match mask, row with
  | b :: mask', y :: row' =>
      if b then y :: select mask' row' else select mask' row'
  | _, _ => []
  end.

(** [np.trapz(y, dx=dx)]: the sum of [dx * (y[i+1] + y[i]) / 2] over the
    consecutive pairs of [y]; the empty sum is [0]. *)
Fixpoint trapz (dx : Q) (y : list Q) : Q :=
  match y with
  | y0 :: ((y1 :: _) as rest) => dx * (y1 + y0) / 2 + trapz dx rest
  | _ => 0
  end.

(** The body of the loop of [compute_band_powers] for one band
    (lines 129-134).  [freqs[1] - freqs[0]] is evaluated before the PSD is
    indexed; the boolean index must have the length of the frequency axis
    of [psds]. *)
Definition band_power (psds : ndarray3) (freqs : list Q) (fmin fmax : Q)
  : result matrix :=
  let mask := freq_mask freqs fmin fmax in
  match freqs with
  | f0 :: f1 :: _ =>
      let freq_res := f1 - f0 in
      if Nat.eqb (length mask) (n_freqs psds)
      then Ok (map (map (fun row => trapz freq_res (select mask row)))
                 (cells psds))
      else Raise IndexError
  | _ => Raise IndexError
  end.

(** The loop over [bands.items()], accumulating into [band_powers]. *)
Fixpoint band_loop (psds : ndarray3) (freqs : list Q)
  (bands : list (string * (Q * Q))) (band_powers : gmap string matrix)
  : result (gmap string matrix) :=
  match bands with
  | [] => Ok band_powers
  | (band_name, (fmin, fmax)) :: bands' =>
      p ← band_power psds freqs fmin fmax;
      band_loop psds freqs bands' (<[band_name := p]> band_powers)
  end.

(** [compute_band_powers(psds, freqs, bands=None)]. *)
Definition compute_band_powers (psds : ndarray3) (freqs : list Q)
  (bands : option (list (string * (Q * Q)))) : result (gmap string matrix) :=
  let bands := match bands with None => FREQ_BANDS | Some b => b end in
  band_loop psds freqs bands ∅.

(** The least magnitude that float64 rounds to infinity: half an ulp above
    the largest finite number [2^1024 - 2^971]. *)
Definition float64_overflow : Q := Eval cbv in inject_Z (2 ^ 1024 - 2 ^ 970).

(** The float64 division [x / y] of numpy on two finite numbers.  A cell of
    a ratio array is [None] where float64 gives a non-finite value: for a
    zero denominator ([inf] or [nan], with a warning) and for a quotient
    that rounds to infinity.  Otherwise it is the quotient, which float64
    rounds to the nearest of its numbers; that rounding is not modelled. *)
Definition np_div (x y : Q) : option Q :=
  if Qeq_bool y 0 then None
  else if Qle_bool float64_overflow (Qabs (x / y)) then None
  else Some (x / y).

(** [epsilon = 1e-10]: the literal denotes the float64 nearest to it,
    [7737125245533627 / 2^86]. *)
Definition epsilon : Q := Eval cbv in (7737125245533627 # (2 ^ 86)).

(** [alpha + epsilon]: a scalar added to every cell. *)
Definition add_scalar (a : matrix) (c : Q) : matrix :=
  map (map (fun x => x + c)) a.

(** Elementwise [a / b] on two arrays of one shape; numpy refuses operands
    whose shapes do not agree (broadcasting between different shapes is not
    modelled: every array of a band-power table has the shape
    [(n_epochs, n_channels)]). *)
Fixpoint row_div (a b : list Q) : result (list (option Q)) :=
  match a, b with
  | [], [] => Ok []
  | x :: a', y :: b' => r ← row_div a' b'; Ok (np_div x y :: r)
  | _, _ => Raise ValueError
  end.

Fixpoint array_div (a b : matrix) : result (list (list (option Q))) :=
  match a, b with
  | [], [] => Ok []
  | ra :: a', rb :: b' =>
      r ← row_div ra rb;
      rs ← array_div a' b';
      Ok (r :: rs)
  | _, _ => Raise ValueError
  end.

Definition getitem {V : Type} (d : gmap string V) (k : string) : result V :=
  match d !! k with
  | Some v => Ok v
  | None => Raise KeyError
  end.

(** Lines 168-181 of [compute_ratios]: the three arrays read and the
    dictionary of the two quotients. *)
Definition ratio_arrays (band_powers : gmap string matrix)
  : result (gmap string (list (list (option Q)))) :=
  delta ← getitem band_powers "delta";
  theta ← getitem band_powers "theta";
  alpha ← getitem band_powers "alpha";
  dar ← array_div delta (add_scalar alpha epsilon);
  tar ← array_div theta (add_scalar alpha epsilon);
  Ok (<["TAR"%string := tar]> (<["DAR"%string := dar]> ∅)).

(** [a.size] of a 2-D array. *)
Definition size2 {A : Type} (a : list (list A)) : nat := length (concat a).

(** [compute_ratios(band_powers)], lines 150-196: the arrays, then the
    summary that is printed before the dictionary is returned; [np.min]
    and [np.max] of an array without any cell raise [ValueError]. *)
Definition compute_ratios (band_powers : gmap string matrix)
  : result (gmap string (list (list (option Q)))) :=
  ratios ← ratio_arrays band_powers;
  dar ← getitem ratios "DAR";
  tar ← getitem ratios "TAR";
  if Nat.eqb (size2 dar) 0 then Raise ValueError
  else if Nat.eqb (size2 tar) 0 then Raise ValueError
  else Ok ratios.

(** ** Signal buffers and epochs *)

(** [round(x)] of Python and [np.round]: to the nearest integer, ties to
    the even one. *)
Definition round_half_even (x : Q) : Z :=
  let f := Qfloor x in
  let r := x - inject_Z f in
  match Qcompare r (1 # 2) with
  | Lt => f
  | Gt => (f + 1)%Z
  | Eq => if Z.even f then f else (f + 1)%Z
  end.

(** [mne.io.Raw]: channel names, sampling rate and the array
    [channel, time].  Every channel is an EEG channel, [first_samp] is 0 and
    there are no annotations, as for the [RawArray] built by
    [csv_to_edf]. *)
Record Raw : Type := mk_Raw {
  ch_names : list string;
  sfreq : Q;
  samples : list (list Q)
}.

Definition n_times (raw : Raw) : nat :=
  match samples raw with
  | [] => 0%nat
  | c :: _ => length c
  end.


(** [mne.Epochs] after loading: [selection] holds, for each epoch kept, the
    index of its event in the list of events given to the constructor. *)
Record Epochs : Type := mk_Epochs {
  e_ch_names : list string;
  e_sfreq : Q;
  e_tmin : Q;
  e_tmax : Q;
  selection : list nat;
  e_data : list (list (list Q))
}.

(** [len(epochs)] *)
Definition len (e : Epochs) : nat := length (e_data e).

(** [autoreject.RejectLog] *)
Record RejectLog : Type := mk_RejectLog {
  bad_epochs : list bool;
  labels : list (list nat);
  rl_ch_names : list string
}.

(** [bad_epochs.sum()] *)
Definition bool_sum (l : list bool) : nat := length (filter (fun b => b = true) l).

(** The arguments given to the [AutoReject] constructor. *)
Record AutoReject : Type := mk_AutoReject {
  n_interpolate : list nat;
  cv : nat;
  random_state : nat;
  n_jobs : nat
}.

(** The numerical routines of MNE and autoreject that the pipeline calls
    and the repository does not contain, with the part of their documented
    contract that the pipeline relies on.
    - [fir_filter sfreq l_freq h_freq x]: the zero-phase FIR band-pass that
      [raw.filter] applies to one channel; the output has the length of
      the input.
    - [ica_fit_apply n_components random_state raw]: [ICA.fit] followed by
      [ICA.apply]; sampling rate, channels and sample counts are kept.
    - [rescale baseline sfreq x]: the baseline correction of one channel of
      one epoch, for [baseline=None] or an interval with both ends given;
      it keeps the length and is the identity for [baseline=None].
    - [get_rejection_threshold epochs]: autoreject's calibration of the
      global peak-to-peak threshold for the EEG channels,
      [get_rejection_threshold(epochs, ch_types='eeg')]['eeg']; the
      threshold is one of the observed amplitudes, hence not negative.  The
      calibration scores the candidates by cross-validation with its
      default of five folds, which the code does not change: on fewer than
      five epochs it raises.
    - [fit_transform ar epochs]: [AutoReject(...).fit_transform(epochs,
      return_log=True)]; the epochs returned are epochs of the input, in
      their order, possibly repaired, so their count does not grow. *)
Record Backend : Type := mk_Backend {
  fir_filter : Q → Q → Q → list Q → result (list Q);
  fir_filter_length : ∀ sf l h x y,
    fir_filter sf l h x = Ok y → length y = length x;
  ica_fit_apply : nat → nat → Raw → result Raw;
  ica_shape : ∀ k seed raw raw',
    ica_fit_apply k seed raw = Ok raw' →
    ch_names raw' = ch_names raw ∧ sfreq raw' = sfreq raw ∧
    map length (samples raw') = map length (samples raw);
  rescale : option (Q * Q) → Q → list Q → list Q;
  rescale_length : ∀ b sf x, length (rescale b sf x) = length x;
  rescale_None : ∀ sf x, rescale None sf x = x;
  get_rejection_threshold : Epochs → result Q;
  get_rejection_threshold_nonneg : ∀ e t,
    get_rejection_threshold e = Ok t → 0 <= t;
  get_rejection_threshold_cv : ∀ e,
    (len e < 5)%nat → is_ok (get_rejection_threshold e) = false;
  fit_transform : AutoReject → Epochs → result (Epochs * RejectLog);
  fit_transform_len : ∀ ar e e' log,
    fit_transform ar e = Ok (e', log) → (len e' ≤ len e)%nat
}.

(** ** MNE routines that decide sample indices *)

Definition Qlt_bool (x y : Q) : bool := negb (Qle_bool y x).

(** [np.arange(0, stop, step).astype(int)] for a float [step]: the values
    [k * step], truncated, for [k] below [ceil(stop / step)]. *)
Definition arange_int (stop : Z) (step : Q) : list Z :=
  map (fun k => Qfloor (inject_Z (Z.of_nat k) * step))
    (seq 0 (Z.to_nat (Qceiling (inject_Z stop / step)))).

(** [mne.make_fixed_length_events(raw, duration=duration, overlap=overlap)]
    with [start=0], [stop=None], [first_samp=0]: the sample indices of the
    events.  The last admissible start is
    [n_times - round(sfreq * duration)]. *)
Definition make_fixed_length_events (raw : Raw) (duration overlap : Q)
  : result (list Z) :=
  if negb (Qle_bool 0 overlap && Qlt_bool overlap duration)
  then Raise ValueError
  else
    let stop :=
      (Z.of_nat (n_times raw) - round_half_even (sfreq raw * duration) + 1)%Z in
    let ts := arange_int stop (sfreq raw * (duration - overlap)) in
    if Nat.eqb (length ts) 0 then Raise ValueError else Ok ts.

(** [c[start : start + n]] *)
Definition slice (start n : nat) (c : list Q) : list Q := take n (drop start c).

(** The number of samples of one epoch: the samples closest to [tmin] and
    to [tmax] are both included. *)
Definition epoch_n_times (sf tmin tmax : Q) : Z :=
  (round_half_even (tmax * sf) - round_half_even (tmin * sf) + 1)%Z.

(** Whether the window of the event at sample [ev] lies inside the
    recording; an event whose window does not is dropped when the epochs
    are loaded ([NO_DATA] before the start, [TOO_SHORT] past the end). *)
Definition window_fits (raw : Raw) (tmin tmax : Q) (ev : Z) : bool :=
  let start := (ev + round_half_even (tmin * sfreq raw))%Z in
  (0 <=? start)%Z
  && (start + epoch_n_times (sfreq raw) tmin tmax <=? Z.of_nat (n_times raw))%Z.

(** [mne.Epochs(raw, events, tmin=tmin, tmax=tmax, baseline=baseline,
    preload=True)] for events at distinct samples, as the fixed-length
    events are when an epoch is at least one sample long ([mne.Epochs]
    raises on repeated events).  [tmin] and [tmax] of the result are the
    times of the first and of the last sample of an epoch. *)
Definition new_Epochs (B : Backend) (raw : Raw) (events : list Z)
  (tmin tmax : Q) (baseline : option (Q * Q)) : Epochs :=
  let kept :=
    filter (fun p => window_fits raw tmin tmax p.2 = true)
      (zip (seq 0 (length events)) events) in
  let window (ev : Z) (c : list Q) :=
    slice (Z.to_nat (ev + round_half_even (tmin * sfreq raw)))
      (Z.to_nat (epoch_n_times (sfreq raw) tmin tmax)) c in
  {| e_ch_names := ch_names raw;
     e_sfreq := sfreq raw;
     e_tmin := inject_Z (round_half_even (tmin * sfreq raw)) / sfreq raw;
     e_tmax := inject_Z (round_half_even (tmax * sfreq raw)) / sfreq raw;
     selection := kept.*1;
     e_data :=
       map (fun p =>
              map (fun c => rescale B baseline (sfreq raw) (window p.2 c))
                (samples raw))
         kept |}.

(** Peak-to-peak amplitude of one channel of one epoch. *)
Definition ptp (c : list Q) : Q :=
  match c with
  | [] => 0
  | x :: c' => fold_left Qmax c' x - fold_left Qmin c' x
  end.

(** An epoch is kept when no channel has a peak-to-peak amplitude greater
    than the threshold. *)
Definition is_good (thresh : Q) (epoch : list (list Q)) : bool :=
  forallb (fun c => negb (Qlt_bool thresh (ptp c))) epoch.

(** [epochs.drop_bad(reject={'eeg': thresh})] on epochs that carry no
    earlier rejection threshold. *)
Definition drop_bad (thresh : Q) (e : Epochs) : result Epochs :=
  if Qlt_bool thresh 0 then Raise ValueError
  else
    let kept :=
      filter (fun p => is_good thresh p.2 = true)
        (zip (selection e) (e_data e)) in
    Ok {| e_ch_names := e_ch_names e;
          e_sfreq := e_sfreq e;
          e_tmin := e_tmin e;
          e_tmax := e_tmax e;
          selection := kept.*1;
          e_data := kept.*2 |}.

(** [raw.crop(tmin=tmin, tmax=tmax)], [include_tmax=True]: the samples
    [round(tmin * sfreq) .. round(tmax * sfreq)]. *)
Definition crop (raw : Raw) (tmin tmax : Q) : result Raw :=
  let max_time := (inject_Z (Z.of_nat (n_times raw)) - 1) / sfreq raw in
  if Qlt_bool tmax tmin then Raise ValueError
  else if Qlt_bool tmin 0 then Raise ValueError
  else if Qlt_bool max_time tmax then Raise ValueError
  else
    let smin := Z.to_nat (round_half_even (tmin * sfreq raw)) in
    let smax := Z.to_nat (round_half_even (tmax * sfreq raw)) in
    Ok {| ch_names := ch_names raw;
          sfreq := sfreq raw;
          samples := map (slice smin (smax - smin + 1)) (samples raw) |}.

(** ** The store of [Raw] objects *)

Abbreviation store := (gmap nat Raw).

Definition deref (σ : store) (r : nat) : result Raw :=
  match σ !! r with
  | Some raw => Ok raw
  | None => Raise TypeError
  end.

(** [raw.copy()]: a new object with the same contents. *)
Definition raw_copy (r : nat) (σ : store) : result (nat * store) :=
  raw ← deref σ r;
  let r' := fresh (dom σ) in
  Ok (r', <[r' := raw]> σ).

Fixpoint map_result {A C : Type} (f : A → result C) (l : list A)
  : result (list C) :=
  match l with
  | [] => Ok []
  | x :: l' => y ← f x; ys ← map_result f l'; Ok (y :: ys)
  end.

(** [raw.filter(l_freq=l_freq, h_freq=h_freq, fir_design='firwin')]: every
    channel is filtered on its own, in place. *)
Definition raw_filter (B : Backend) (r : nat) (l_freq h_freq : Q) (σ : store)
  : result store :=
  raw ← deref σ r;
  chans ← map_result (fir_filter B (sfreq raw) l_freq h_freq) (samples raw);
  Ok (<[r := {| ch_names := ch_names raw;
                sfreq := sfreq raw;
                samples := chans |}]> σ).

(** ** preprocessing.py *)

(** Lines 33-53 of [preprocess_raw]: [raw = raw.copy()], the 0.5-40 Hz
    band-pass on the copy and, when asked for, ICA on the copy.  The result
    is the reference that the local name [raw] is bound to afterwards. *)
Definition condition (B : Backend) (r : nat) (apply_ica : bool) (σ : store)
  : result (nat * store) :=
  '(r1, σ1) ← raw_copy r σ;
  σ2 ← raw_filter B r1 (5 # 10) 40 σ1;
  if apply_ica then
    raw ← deref σ2 r1;
    raw' ← ica_fit_apply B (Nat.min 4 (length (ch_names raw))) 42 raw;
    Ok (r1, <[r1 := raw']> σ2)
  else Ok (r1, σ2).

(** Lines 56-73: fixed-length events without overlap, then epochs from
    [tmin=0] to [tmax=epoch_duration]. *)
Definition create_epochs (B : Backend) (raw : Raw) (epoch_duration : Q)
  (baseline : option (Q * Q)) : result Epochs :=
  events ← make_fixed_length_events raw epoch_duration 0;
  Ok (new_Epochs B raw events 0 epoch_duration baseline).

(** [bad_epochs[dropped_indices] = True] *)
Definition set_true (idx : list nat) (a : list bool) : list bool :=
  foldl (fun acc i => <[i := true]> acc) a idx.

(** Lines 79-99: the branch for fewer than 10 epochs. *)
Definition simplified_rejection (B : Backend) (epochs : Epochs)
  : result (Epochs * RejectLog) :=
  reject_criteria ← get_rejection_threshold B epochs;
  epochs_clean ← drop_bad reject_criteria epochs;
  let dropped_indices :=
    filter (fun i => i ∉ selection epochs_clean) (seq 0 (len epochs)) in
  let bad := set_true dropped_indices (replicate (len epochs) false) in
  Ok (epochs_clean,
      {| bad_epochs := bad;
         labels :=
           replicate (len epochs) (replicate (length (e_ch_names epochs)) 0%nat);
         rl_ch_names := e_ch_names epochs |}).

(** Lines 103-111: the [AutoReject] object built for [n_epochs] epochs. *)
Definition autoreject_for (n_epochs : nat) : AutoReject :=
  let cv_folds := Nat.min 5 (n_epochs / 2) in
  {| n_interpolate := [1; 2; 3; 4]%nat;
     cv := cv_folds;
     random_state := 42;
     n_jobs := 1 |}.

(** Lines 76-113: the primary rejection, chosen by the number of epochs. *)
Definition primary_rejection (B : Backend) (epochs : Epochs)
  : result (Epochs * RejectLog) :=
  let n_epochs := len epochs in
  if (n_epochs <? 10)%nat then simplified_rejection B epochs
  else fit_transform B (autoreject_for n_epochs) epochs.

(** Lines 121-126: the additional amplitude-based rejection. *)
Definition additional_rejection (B : Backend) (n_epochs : nat)
  (epochs_clean : Epochs) : result Epochs :=
  if (10 <=? n_epochs)%nat then
    reject_criteria ← get_rejection_threshold B epochs_clean;
    drop_bad reject_criteria epochs_clean
  else Ok epochs_clean.

(** Lines 75-134: from the epochs to [(epochs_clean, reject_log)]. *)
Definition reject_epochs (B : Backend) (epochs : Epochs)
  : result (Epochs * RejectLog) :=
  '(epochs_clean, reject_log) ← primary_rejection B epochs;
  epochs_clean' ← additional_rejection B (len epochs) epochs_clean;
  Ok (epochs_clean', reject_log).

(** [preprocess_raw(raw, epoch_duration, baseline, apply_ica)]. *)
Definition preprocess_raw (B : Backend) (r : nat) (epoch_duration : Q)
  (baseline : option (Q * Q)) (apply_ica : bool) (σ : store)
  : result ((Epochs * RejectLog) * store) :=
  '(r1, σ1) ← condition B r apply_ica σ;
  raw ← deref σ1 r1;
  epochs ← create_epochs B raw epoch_duration baseline;
  res ← reject_epochs B epochs;
  Ok (res, σ1).

(** ** process_eeg.py *)

(** Lines 91-94: the time of the last sample, or [n_times / sfreq] when
    there is no sample. *)
Definition total_duration_sec (raw : Raw) : Q :=
  match n_times raw with
  | O => 0 / sfreq raw
  | S k => inject_Z (Z.of_nat k) / sfreq raw
  end.

(** Lines 88-97: the optional limit to the first [seconds] seconds, applied
    in place to the object returned by the loader. *)
Definition limit_seconds (r : nat) (seconds : option Q) (σ : store)
  : result store :=
  match seconds with
  | None => Ok σ
  | Some s =>
      if Qle_bool s 0 then Raise ValueError
      else
        raw ← deref σ r;
        let tmax := Qmin s (total_duration_sec raw) in
        raw' ← crop raw 0 tmax;
        Ok (<[r := raw']> σ)
  end.

(** Lines 87-116 of [process_eeg_recording]: the limit, the two copies kept
    for the plots (the second one filtered), then [preprocess_raw] with the
    pipeline's arguments. *)
Definition process_eeg_recording (B : Backend) (r : nat) (seconds : option Q)
  (σ : store) : result ((Epochs * RejectLog) * store) :=
  σ1 ← limit_seconds r seconds σ;
  '(raw_original, σ2) ← raw_copy r σ1;
  '(raw_filtered, σ3) ← raw_copy r σ2;
  σ4 ← raw_filter B raw_filtered (5 # 10) 40 σ3;
  preprocess_raw B r 2 None false σ4.

(** ** A backend to run the model on *)

(** A backend that satisfies the contract: the filter and ICA return their
    input, the baseline correction subtracts the first sample of the window,
    the threshold is the constant 100 µV from five epochs on and
    AutoReject keeps every epoch. *)
Definition reference_rescale (b : option (Q * Q)) (sf : Q) (x : list Q)
  : list Q :=
  match b with
  | None => x
  | Some _ => map (fun v => v - hd 0 x) x
  end.

Definition reference_fit_transform (ar : AutoReject) (e : Epochs)
  : result (Epochs * RejectLog) :=
  Ok (e, {| bad_epochs := replicate (len e) false;
            labels := replicate (len e) (replicate (length (e_ch_names e)) 0%nat);
            rl_ch_names := e_ch_names e |}).

Definition reference_threshold (e : Epochs) : result Q :=
  if (len e <? 5)%nat then Raise ValueError else Ok (1 # 10000).

Definition reference_backend : Backend :=
  {| fir_filter := fun _ _ _ x => Ok x;
     fir_filter_length := ltac:(by intros ? ? ? x y [= <-]);
     ica_fit_apply := fun _ _ raw => Ok raw;
     ica_shape := ltac:(by intros ? ? raw raw' [= <-]);
     rescale := reference_rescale;
     rescale_length :=
       ltac:(intros [b|] ? x; simpl; [apply length_map | reflexivity]);
     rescale_None := fun _ _ => eq_refl;
     get_rejection_threshold := reference_threshold;
     get_rejection_threshold_nonneg :=
       ltac:(intros e t; unfold reference_threshold;
             destruct (len e <? 5)%nat; [discriminate | by intros [= <-]]);
     get_rejection_threshold_cv :=
       ltac:(intros e He; unfold reference_threshold;
             apply Nat.ltb_lt in He; by rewrite He);
     fit_transform := reference_fit_transform;
     fit_transform_len := ltac:(by intros ? e e' ? [= <- _]) |}.

(** The reference backend with an AutoReject that keeps the first four
    epochs and flags the others. *)
Definition harsh_fit_transform (ar : AutoReject) (e : Epochs)
  : result (Epochs * RejectLog) :=
  Ok ({| e_ch_names := e_ch_names e;
         e_sfreq := e_sfreq e;
         e_tmin := e_tmin e;
         e_tmax := e_tmax e;
         selection := take 4 (selection e);
         e_data := take 4 (e_data e) |},
      {| bad_epochs :=
           replicate (Nat.min 4 (len e)) false ++ replicate (len e - 4) true;
         labels := replicate (len e) (replicate (length (e_ch_names e)) 0%nat);
         rl_ch_names := e_ch_names e |}).

Definition harsh_backend : Backend :=
  {| fir_filter := fun _ _ _ x => Ok x;
     fir_filter_length := ltac:(by intros ? ? ? x y [= <-]);
     ica_fit_apply := fun _ _ raw => Ok raw;
     ica_shape := ltac:(by intros ? ? raw raw' [= <-]);
     rescale := reference_rescale;
     rescale_length :=
       ltac:(intros [b|] ? x; simpl; [apply length_map | reflexivity]);
     rescale_None := fun _ _ => eq_refl;
     get_rejection_threshold := reference_threshold;
     get_rejection_threshold_nonneg :=
       ltac:(intros e t; unfold reference_threshold;
             destruct (len e <? 5)%nat; [discriminate | by intros [= <-]]);
     get_rejection_threshold_cv :=
       ltac:(intros e He; unfold reference_threshold;
             apply Nat.ltb_lt in He; by rewrite He);
     fit_transform := harsh_fit_transform;
     fit_transform_len :=
       ltac:(intros ? e e' ? [= <- _]; unfold len; simpl;
             rewrite length_take; lia) |}.

(** ** Inputs for the examples and predicates of the statements *)

(** The cell [a[e, c]] of a 2-D array. *)
Definition cell {A : Type} (a : list (list A)) (e c : nat) : option A :=
  a !! e ≫= fun row => row !! c.

(** A band-power table: the three bands read by [compute_ratios] are
    present and their arrays have one shape. *)
Definition band_power_table (bp : gmap string matrix)
  (delta theta alpha : matrix) : Prop :=
  bp !! "delta"%string = Some delta ∧
  bp !! "theta"%string = Some theta ∧
  bp !! "alpha"%string = Some alpha ∧
  map length delta = map length alpha ∧
  map length theta = map length alpha.

(** A power spectrum: a 3-D array of the stated shape with a frequency axis
    as long as its last dimension. *)
Definition power_spectrum (psds : ndarray3) (freqs : list Q) : Prop :=
  shape_ok psds ∧ length freqs = n_freqs psds.

(** A spectrum with one frequency bin at 50 Hz, outside every band. *)
Definition one_bin_psds : ndarray3 :=
  {| n_epochs := 1; n_channels := 1; n_freqs := 1; cells := [[[7]]] |}.

(** A spectrum on the axis 0.5, 1, 1.5, 2 Hz. *)
Definition four_bin_psds : ndarray3 :=
  {| n_epochs := 1; n_channels := 1; n_freqs := 4; cells := [[[4; 6; 8; 2]]] |}.

(** A flat two-channel recording of [n] samples at 256 Hz. *)
Definition flat_recording (n : nat) : Raw :=
  {| ch_names := ["AF7"%string; "AF8"%string];
     sfreq := 256;
     samples := [repeat 0 n; repeat 0 n] |}.

(** Sample counts at 256 Hz: 20 s, and 22 s plus one sample. *)
Definition samples_20s : nat := Z.to_nat 5120.

Definition samples_22s : nat := Z.to_nat 5633.

(** A flat recording whose last sample is at 10.0 s: 2561 samples at
    256 Hz. *)
Definition recording_10s : Raw := flat_recording 2561.

(** Two recordings of the two frontal channels at 256 Hz, flat but for one
    spike of 1 mV at sample 600 of the first channel: 1537 samples (three
    epochs of 2 s) and 5633 samples (eleven epochs). *)
Definition spike_recording (n : nat) : Raw :=
  {| ch_names := ["AF7"%string; "AF8"%string];
     sfreq := 256;
     samples :=
       [ repeat 0 600 ++ [1 # 1000] ++ repeat 0 (n - 601);
         repeat 0 n ] |}.

(** The epochs of 2 s that the segmenter cuts from a recording, with the
    reference backend. *)
Definition epochs_of (raw : Raw) : Epochs :=
  match create_epochs reference_backend raw 2 None with
  | Ok e => e
  | Raise _ => mk_Epochs [] 0 0 0 [] []
  end.

(** A band-power table of one epoch and two channels whose alpha power is
    0 on the first channel. *)
Definition example_table : gmap string matrix :=
  <["gamma"%string := [[1; 1]]]>
    (<["beta"%string := [[2; 2]]]>
       (<["alpha"%string := [[0; 4]]]>
          (<["theta"%string := [[2; 5]]]>
             (<["delta"%string := [[3; 1]]]> ∅)))).

(** ** psd_analysis.py: spectral estimation and the results table *)

(** [int(x)] of Python on a float: truncation toward zero. *)
Definition py_int (x : Q) : Z :=
  if Qle_bool 0 x then Qfloor x else Qceiling x.

(** [psds * k] *)
Definition scale_psds (a : ndarray3) (k : Q) : ndarray3 :=
  {| n_epochs := n_epochs a;
     n_channels := n_channels a;
     n_freqs := n_freqs a;
     cells := map (map (map (fun x => x * k))) (cells a) |}.

(** MNE's Welch estimator on epochs,
    [epochs.compute_psd(method='welch', fmin, fmax, n_fft, n_overlap,
    n_per_seg)] (or [psd_welch] of older versions, with the same
    arguments), with the documented shape of its result: one spectrum per
    epoch and channel on a common frequency axis. *)
Record Spectral : Type := mk_Spectral {
  psd_welch : Epochs → Q → Q → Z → Z → Z → result (ndarray3 * list Q);
  psd_welch_shape : ∀ e fmin fmax n_fft n_overlap n_per_seg psds freqs,
    psd_welch e fmin fmax n_fft n_overlap n_per_seg = Ok (psds, freqs) →
    shape_ok psds ∧ n_epochs psds = len e ∧
    n_channels psds = length (e_ch_names e) ∧ n_freqs psds = length freqs
}.

(** [compute_psd_welch(epochs, fmin, fmax, window_sec, overlap_sec)]: the
    window and the overlap in samples, the estimator, the conversion from
    V² to µV².  The summary printed at line 91 reads [freqs[0]] and
    [freqs[-1]] and so raises on an empty frequency axis. *)
Definition compute_psd_welch (S : Spectral) (epochs : Epochs)
  (fmin fmax window_sec overlap_sec : Q) : result (ndarray3 * list Q) :=
  let sf := e_sfreq epochs in
  let n_fft := py_int (window_sec * sf) in
  let n_overlap := py_int (overlap_sec * sf) in
  '(psds, freqs) ← psd_welch S epochs fmin fmax n_fft n_overlap n_fft;
  let psds := scale_psds psds 1000000000000 in
  match freqs with
  | [] => Raise IndexError
  | _ => Ok (psds, freqs)
  end.

(** A row of the results table. *)
Record ResultRow : Type := mk_ResultRow {
  row_epoch : nat;
  row_channel : string;
  delta_power : Q;
  theta_power : Q;
  alpha_power : Q;
  beta_power : Q;
  gamma_power : Q;
  DAR : option Q;
  TAR : option Q
}.

(** [d[key][epoch_idx, ch_idx]]: the key first, then the two indices. *)
Definition getcell {A : Type} (d : gmap string (list (list A))) (key : string)
  (epoch_idx ch_idx : nat) : result A :=
  a ← getitem d key;
  match cell a epoch_idx ch_idx with
  | Some x => Ok x
  | None => Raise IndexError
  end.

(** The dictionary built at lines 224-234, its values in source order. *)
Definition result_row (band_powers : gmap string matrix)
  (ratios : gmap string (list (list (option Q))))
  (epoch_idx ch_idx : nat) (ch_name : string) : result ResultRow :=
  d ← getcell band_powers "delta" epoch_idx ch_idx;
  t ← getcell band_powers "theta" epoch_idx ch_idx;
  a ← getcell band_powers "alpha" epoch_idx ch_idx;
  b ← getcell band_powers "beta" epoch_idx ch_idx;
  g ← getcell band_powers "gamma" epoch_idx ch_idx;
  dar ← getcell ratios "DAR" epoch_idx ch_idx;
  tar ← getcell ratios "TAR" epoch_idx ch_idx;
  Ok {| row_epoch := epoch_idx; row_channel := ch_name;
        delta_power := d; theta_power := t; alpha_power := a;
        beta_power := b; gamma_power := g; DAR := dar; TAR := tar |}.

(** [create_results_dataframe(epochs, band_powers, ratios)]: the rows in
    the order of the two nested loops. *)
Definition create_results_dataframe (epochs : Epochs)
  (band_powers : gmap string matrix)
  (ratios : gmap string (list (list (option Q)))) : result (list ResultRow) :=
  let ch_names := e_ch_names epochs in
  results ←
    map_result
      (fun epoch_idx =>
         map_result
           (fun p => result_row band_powers ratios epoch_idx p.1 p.2)
           (zip (seq 0 (length ch_names)) ch_names))
      (seq 0 (len epochs));
  Ok (concat results).


(** ** visualization.py *)

(** Lines 213-217 of [compute_raw_psd]: the window, the segment and the
    overlap for epochs of [n_times] samples. *)
Definition raw_psd_params (n_fft n_times : Z) : Z * Z * Z :=
  let n_fft := Z.min n_fft n_times in
  let n_per_seg := n_fft in
  let n_overlap := (n_fft / 2)%Z in
  (n_fft, n_per_seg, n_overlap).

(** [compute_raw_psd(raw, fmin, fmax, n_fft)]: epochs of 2 s cut as in
    [preprocess_raw], the window capped at the epoch length. *)
Definition compute_raw_psd (B : Backend) (S : Spectral) (raw : Raw)
  (fmin fmax : Q) (n_fft : Z) : result (ndarray3 * list Q) :=
  events ← make_fixed_length_events raw 2 0;
  let epochs_temp := new_Epochs B raw events 0 2 None in
  let n_times := epoch_n_times (sfreq raw) 0 2 in
  let '(n_fft, n_per_seg, n_overlap) := raw_psd_params n_fft n_times in
  '(psds, freqs) ← psd_welch S epochs_temp fmin fmax n_fft n_overlap n_per_seg;
  Ok (scale_psds psds 1000000000000, freqs).

(** ** preprocessing.py: the report *)

Record Report : Type := mk_Report {
  n_epochs_final : nat;
  n_epochs_rejected : nat;
  rejection_rate : option Q;
  channels : list string;
  report_sfreq : Q;
  duration : Q
}.

(** [get_preprocessing_report(epochs_clean, reject_log)]; the rate is a
    numpy quotient, [nan] for a log without epochs. *)
Definition get_preprocessing_report (epochs_clean : Epochs)
  (reject_log : RejectLog) : Report :=
  let rejected := bool_sum (bad_epochs reject_log) in
  {| n_epochs_final := len epochs_clean;
     n_epochs_rejected := rejected;
     rejection_rate :=
       (fun q => q * 100) <$>
         np_div (inject_Z (Z.of_nat rejected))
           (inject_Z (Z.of_nat (length (bad_epochs reject_log))));
     channels := e_ch_names epochs_clean;
     report_sfreq := e_sfreq epochs_clean;
     duration :=
       inject_Z (Z.of_nat (len epochs_clean))
       * (e_tmax epochs_clean - e_tmin epochs_clean) |}.

(** ** csv_to_edf.py: the sampling rate *)




(** ** process_eeg.py and batch_process.py: the calls *)

(** The values passed at line 149. *)
Inductive pyobj : Type :=
| PyTable (band_powers : gmap string matrix)
| PyNames (names : list string).

(** A call of [compute_ratios] with positional arguments: the function has
    one parameter; a list in its place fails at [band_powers['delta']]. *)
Definition call_compute_ratios (args : list pyobj)
  : result (gmap string (list (list (option Q)))) :=
  match args with
  | [PyTable band_powers] => compute_ratios band_powers
  | _ => Raise TypeError
  end.

(** Lines 87-149 of [process_eeg_recording]: preprocessing, report,
    spectrum, band powers and the call of [compute_ratios]. *)
Definition process_eeg_recording_ratios (B : Backend) (S : Spectral) (r : nat)
  (seconds : option Q) (σ : store)
  : result (gmap string (list (list (option Q)))) :=
  '((epochs_clean, reject_log), _) ← process_eeg_recording B r seconds σ;
  let preprocessing_report := get_preprocessing_report epochs_clean reject_log in
  '(psds, freqs) ← compute_psd_welch S epochs_clean (5 # 10) 40 2 1;
  band_powers ← compute_band_powers psds freqs None;
  let channel_names := e_ch_names epochs_clean in
  call_compute_ratios [PyTable band_powers; PyNames channel_names].

(** The entry of one file in [results]. *)
Inductive FileStatus : Type :=
| Success
| Failed (error : exn).

Definition is_success (s : FileStatus) : bool :=
  match s with Success => true | Failed _ => false end.

Definition is_failed (s : FileStatus) : bool :=
  match s with Success => false | Failed _ => true end.

(** The body of the loop: the entry appended for one file, by the [try]
    branch or by the [except Exception] branch. *)
Definition file_status {F R : Type} (process : F → result R) (f : F)
  : F * FileStatus :=
  (f, match process f with
      | Ok _ => Success
      | Raise e => Failed e
      end).

(** [batch_process_recordings]: [None] when no file matches; otherwise the
    entries of [results], one per file, and the two counts printed. *)
Definition batch_process_recordings {F R : Type} (process : F → result R)
  (csv_files : list F) : option (list (F * FileStatus) * nat * nat) :=
  match csv_files with
  | [] => None
  | _ =>
      let results := map (file_status process) csv_files in
      let successful :=
        length (filter (fun p => is_success p.2 = true) results) in
      let failed :=
        length (filter (fun p => is_failed p.2 = true) results) in
      Some (results, successful, failed)
  end.

(** A Welch estimator that satisfies the contract: a flat spectrum of three
    bins at 8, 9 and 10 Hz for every epoch and channel. *)
Definition reference_spectral : Spectral :=
  {| psd_welch := fun e _ _ _ _ _ =>
       Ok ({| n_epochs := len e;
              n_channels := length (e_ch_names e);
              n_freqs := 3;
              cells := replicate (len e)
                         (replicate (length (e_ch_names e)) [1; 1; 1]) |},
           [8; 9; 10]);
     psd_welch_shape := ltac:(
       intros e ? ? ? ? ? psds freqs [= <- <-]; simpl;
       repeat split; unfold shape_ok; simpl;
       [ apply length_replicate
       | apply Forall_replicate; split;
         [ apply length_replicate | by apply Forall_replicate ] ]) |}.

(** A dictionary of arrays holds the key, with a cell at every index below
    [(n_e, n_c)]. *)
Definition complete {A : Type} (d : gmap string (list (list A))) (key : string)
  (n_e n_c : nat) : Prop :=
  ∃ m, d !! key = Some m ∧
       ∀ e c, (e < n_e)%nat → (c < n_c)%nat → is_Some (cell m e c).

(** One epoch of three samples on the two frontal channels, and a ratio
    dictionary for [example_table]. *)
Definition example_epochs : Epochs :=
  mk_Epochs ["AF7"%string; "AF8"%string] 256 0 2 [0%nat]
    [[[0; 0; 0]; [0; 0; 0]]].

Definition example_ratios : gmap string (list (list (option Q))) :=
  <["TAR"%string := [[Some 20000000000; Some (5 # 4)]]]>
    (<["DAR"%string := [[Some 30000000000; Some (1 # 4)]]]> ∅).



(** * Properties *)

(** ** Band integrator *)

Section BandIntegrator.

Implicit Types (psds : ndarray3) (freqs row : list Q) (mask : list bool).

Lemma freq_mask_length freqs fmin fmax :
  length (freq_mask freqs fmin fmax) = length freqs.
Proof. apply length_map. Qed.

(** The mask is set exactly at the indices whose frequency lies in the
    closed interval. *)
Lemma freq_mask_lookup freqs fmin fmax i f :
  freqs !! i = Some f →
  freq_mask freqs fmin fmax !! i = Some true ↔ fmin <= f ∧ f <= fmax.
Proof.
  intros Hf. unfold freq_mask. rewrite list_lookup_fmap, Hf. simpl.
  rewrite <- !Qle_bool_iff. split.
  - intros [= H]. by apply andb_prop in H.
  - intros [-> ->]. done.
Qed.

Lemma select_all_false mask row :
  Forall (fun b => b = false) mask → select mask row = [].
Proof.
  intros H. revert row. induction H as [|b mask -> _ IH]; intros [|y row];
    simpl; auto.
Qed.

Lemma freq_mask_no_bin freqs fmin fmax :
  (∀ f, f ∈ freqs → ¬ (fmin <= f ∧ f <= fmax)) →
  Forall (fun b => b = false) (freq_mask freqs fmin fmax).
Proof.
  intros H. unfold freq_mask. apply Forall_fmap, Forall_forall.
  intros f Hf. simpl. apply not_true_is_false. intros Hb.
  apply (H f Hf). apply andb_prop in Hb as [H1 H2].
  by rewrite <- !Qle_bool_iff.
Qed.

(** Trapezoidal quadrature against the naive sum: the two end values count
    for one half. *)
Lemma trapz_sum dx y0 (y : list Q) :
  trapz dx (y0 :: y)
  == dx * (fold_right Qplus 0 (y0 :: y) - (y0 + List.last y y0) / 2).
Proof.
  revert y0. induction y as [|y1 y IH]; intros y0.
  - simpl. field.
  - change (trapz dx (y0 :: y1 :: y))
      with (dx * (y1 + y0) / 2 + trapz dx (y1 :: y)).
    rewrite IH.
    assert (Hlast : ∀ a b, List.last (b :: y) a = List.last y b).
    { clear. induction y as [|c y IHy]; intros a b; [reflexivity|].
      change (List.last (b :: c :: y) a) with (List.last (c :: y) a).
      change (List.last (c :: y) b) with (List.last (c :: y) b).
      rewrite !IHy. reflexivity. }
    rewrite Hlast. simpl. field.
Qed.

Lemma band_power_ok psds freqs fmin fmax f0 f1 rest :
  freqs = f0 :: f1 :: rest →
  length freqs = n_freqs psds →
  band_power psds freqs fmin fmax
  = Ok (map (map (fun row =>
               trapz (f1 - f0) (select (freq_mask freqs fmin fmax) row)))
          (cells psds)).
Proof.
  intros -> Hlen. unfold band_power.
  rewrite freq_mask_length, Hlen, Nat.eqb_refl. reflexivity.
Qed.

Lemma band_power_short psds freqs fmin fmax :
  (length freqs < 2)%nat → band_power psds freqs fmin fmax = Raise IndexError.
Proof.
  destruct freqs as [|f0 [|f1 rest]]; simpl; intros H; try reflexivity. lia.
Qed.

Lemma band_loop_short psds freqs bands acc :
  (length freqs < 2)%nat → bands ≠ [] →
  band_loop psds freqs bands acc = Raise IndexError.
Proof.
  intros Hlen Hne. destruct bands as [|[name [fmin fmax]] bands]; [done|].
  simpl. by rewrite band_power_short.
Qed.

(** What the loop leaves in the dictionary: each band of the list, when
    the names are distinct, is bound to its own integral and the other keys
    are untouched. *)
Lemma band_loop_lookup psds freqs f0 f1 rest bands :
  freqs = f0 :: f1 :: rest →
  length freqs = n_freqs psds →
  NoDup bands.*1 →
  ∀ acc, ∃ bp,
    band_loop psds freqs bands acc = Ok bp ∧
    (∀ name fmin fmax, (name, (fmin, fmax)) ∈ bands →
       bp !! name
       = Some (map (map (fun row =>
                 trapz (f1 - f0) (select (freq_mask freqs fmin fmax) row)))
               (cells psds))) ∧
    (∀ name, name ∉ bands.*1 → bp !! name = acc !! name).
Proof.
  intros Hf Hlen. induction bands as [|[bn [a b]] bands IH]; intros Hnd acc.
  - exists acc. split; [done|]. split; [|done].
    intros ? ? ? H. by apply elem_of_nil in H.
  - simpl in Hnd. apply NoDup_cons in Hnd as [Hbn Hnd].
    simpl. rewrite (band_power_ok _ _ _ _ _ _ _ Hf Hlen). simpl.
    set (p := map (map (fun row =>
                 trapz (f1 - f0) (select (freq_mask freqs a b) row)))
               (cells psds)).
    destruct (IH Hnd (<[bn := p]> acc)) as (bp & Hbp & Hin & Hout).
    exists bp. split; [exact Hbp|]. split.
    + intros name fmin fmax Hel. apply elem_of_cons in Hel as [Heq|Hel].
      * injection Heq as -> -> ->. rewrite (Hout _ Hbn).
        apply lookup_insert_eq.
      * by apply Hin.
    + intros name Hname. apply not_elem_of_cons in Hname as [Hne Hname].
      rewrite (Hout _ Hname). by apply lookup_insert_ne.
Qed.

(** The boolean index keeps, in their order, the values of the row whose
    frequency lies in the closed interval. *)
Lemma select_filter freqs row fmin fmax :
  select (freq_mask freqs fmin fmax) row
  = (filter (fun q : Q * Q => fmin <= q.1 ∧ q.1 <= fmax) (zip freqs row)).*2.
Proof.
  revert row. induction freqs as [|f freqs IH]; intros [|y row];
    try reflexivity.
  cbn [freq_mask map select zip zip_with]. rewrite filter_cons. cbn [fst].
  fold (freq_mask freqs fmin fmax). fold (zip freqs row).
  destruct (Qle_bool fmin f && Qle_bool f fmax) eqn:E.
  - apply andb_true_iff in E as [E1 E2]. apply Qle_bool_iff in E1, E2.
    rewrite decide_True by done. cbn [fmap list_fmap snd]. f_equal. apply IH.
  - rewrite decide_False; [apply IH|]. intros [H1 H2].
    apply Qle_bool_iff in H1, H2. by rewrite H1, H2 in E.
Qed.

(** The trapezoidal rule with a constant spacing: the spacing times the
    sum of the means of the consecutive pairs. *)
Lemma trapz_pairs dx (y : list Q) :
  trapz dx y
  == dx * fold_right Qplus 0 (zip_with (fun y0 y1 => (y0 + y1) / 2) y (tail y)).
Proof.
  induction y as [|y0 [|y1 y] IH]; [simpl; ring..|].
  change (trapz dx (y0 :: y1 :: y))
    with (dx * (y1 + y0) / 2 + trapz dx (y1 :: y)).
  rewrite IH. cbn [tail zip_with fold_right]. field.
Qed.

Lemma cell_fmap {A C : Type} (g : A → C) (a : list (list A)) (e c : nat) (x : A) :
  cell a e c = Some x → cell (map (map g) a) e c = Some (g x).
Proof.
  unfold cell. rewrite list_lookup_fmap.
  destruct (a !! e) as [r|]; [|done]. simpl.
  rewrite list_lookup_fmap. by intros ->.
Qed.

Lemma FREQ_BANDS_NoDup : NoDup FREQ_BANDS.*1.
Proof. apply (bool_decide_unpack _). by vm_compute. Qed.

End BandIntegrator.

(** C3, as stated, fails: the spectrum [one_bin_psds] on the axis [50] is
    well formed and none of the five bands contains a bin, yet the
    integrator raises [IndexError] instead of returning zeros. *)
Lemma band_integrator_one_bin_axis_raises :
  n_freqs one_bin_psds = length [50] ∧
  map (fun b => freq_mask [50] b.2.1 b.2.2) FREQ_BANDS
  = [[false]; [false]; [false]; [false]; [false]] ∧
  compute_band_powers one_bin_psds [50] None = Raise IndexError.
Proof. repeat split. Qed.

(** C3 (amended): for every power spectrum whose frequency axis has at
    least two points and each of the five canonical bands, the integrator
    returns a table in which the band is bound to an array with, at every
    (epoch, channel), the trapezoidal integral of the values of the
    spectrum whose frequency lies in the closed interval [[fmin, fmax]],
    taken in the order of the axis: the spacing, which is the difference
    of the first two axis entries, times the sum of the means of the
    consecutive pairs of these values.  For a band without any frequency
    in its interval the cell is exactly 0. *)
Theorem band_integrator_closed_interval_trapz
  (psds : ndarray3) (freqs : list Q) (name : string) (fmin fmax : Q) :
  power_spectrum psds freqs →
  (2 ≤ length freqs)%nat →
  (name, (fmin, fmax)) ∈ FREQ_BANDS →
  ∃ bp f0 f1 rest p,
    freqs = f0 :: f1 :: rest ∧
    compute_band_powers psds freqs None = Ok bp ∧
    bp !! name = Some p ∧
    map length p = map length (cells psds) ∧
    ∀ e c row,
      cell (cells psds) e c = Some row →
      ∃ x,
        cell p e c = Some x ∧
        (let ys :=
           (filter (fun q : Q * Q => fmin <= q.1 ∧ q.1 <= fmax)
              (zip freqs row)).*2 in
         x == (f1 - f0)
              * fold_right Qplus 0
                  (zip_with (fun y0 y1 => (y0 + y1) / 2) ys (tail ys))) ∧
        ((∀ f, f ∈ freqs → ¬ (fmin <= f ∧ f <= fmax)) → x = 0).
Proof.
  intros [_ Hlen] H2 Hband.
  destruct freqs as [|f0 [|f1 rest]] eqn:Hf; simpl in H2; try lia.
  rewrite <- Hf in *.
  destruct (band_loop_lookup psds freqs f0 f1 rest FREQ_BANDS Hf Hlen
              FREQ_BANDS_NoDup ∅) as (bp & Hbp & Hin & _).
  eexists bp, f0, f1, rest, _. split; [exact Hf|]. split; [exact Hbp|].
  split; [by apply Hin|]. split.
  { rewrite map_map. apply map_ext. intros ep. apply length_map. }
  intros e c row Hrow.
  exists (trapz (f1 - f0) (select (freq_mask freqs fmin fmax) row)).
  split; [by apply (cell_fmap (fun row => trapz (f1 - f0) _))|]. split.
  - cbv zeta. rewrite <- select_filter. apply trapz_pairs.
  - intros Hnone.
    by rewrite (select_all_false _ _ (freq_mask_no_bin _ _ _ Hnone)).
Qed.

(** On the axis 0.5, 1, 1.5, 2 Hz the four bins 4, 6, 8, 2 all lie in the
    delta band and integrate to 8.5. *)
Lemma band_integrator_closed_interval_trapz_witness :
  ∃ bp p x,
    compute_band_powers four_bin_psds [5 # 10; 1; 15 # 10; 2] None = Ok bp ∧
    bp !! "delta"%string = Some p ∧
    cell p 0 0 = Some x ∧
    x == 17 # 2.
Proof.
  destruct (band_integrator_closed_interval_trapz four_bin_psds
              [5 # 10; 1; 15 # 10; 2] "delta" (5 # 10) 4)
    as (bp & f0 & f1 & rest & p & Hf & Hrun & Hp & _ & Hcells).
  - split; [|reflexivity]. split; [reflexivity|].
    repeat constructor.
  - simpl. lia.
  - unfold FREQ_BANDS. apply list_elem_of_here.
  - injection Hf as <- <- <-.
    destruct (Hcells 0%nat 0%nat [4; 6; 8; 2] eq_refl) as (x & Hx & Hval & _).
    exists bp, p, x. split; [exact Hrun|]. split; [exact Hp|].
    split; [exact Hx|]. rewrite Hval. by vm_compute.
Defined.

(** The delta power of [four_bin_psds]: the four bins 4, 6, 8, 2 at a
    spacing of 0.5 Hz integrate to 8.5, where the sum of the bins times the
    spacing would be 10. *)
Example band_integrator_run :
  match compute_band_powers four_bin_psds [5 # 10; 1; 15 # 10; 2] None with
  | Ok bp =>
      match bp !! "delta"%string with
      | Some [[p]] => p == 17 # 2 ∧ (5 # 10) * (4 + 6 + 8 + 2) == 10
      | _ => False
      end
  | Raise _ => False
  end.
Proof. vm_compute. split; reflexivity. Qed.

(** C10, as stated, fails for a call with an empty dictionary of bands:
    the loop body, which holds the access [freqs[1]], never runs, and on
    the one-point axis [50] the integrator returns the empty dictionary. *)
Lemma band_integrator_without_bands_returns :
  length [50] = 1%nat ∧
  compute_band_powers one_bin_psds [50] (Some []) = Ok ∅.
Proof. split; reflexivity. Qed.

(** C10 (amended): with a frequency axis of fewer than two points the
    integrator raises [IndexError], for the default bands and for every
    non-empty dictionary of bands, whatever the spectrum; this is so
    although the integral of a band that selects no bin is [0] for every
    spacing. *)
Theorem band_integrator_needs_two_frequencies
  (psds : ndarray3) (freqs : list Q) (bands : option (list (string * (Q * Q)))) :
  (length freqs < 2)%nat →
  bands ≠ Some [] →
  compute_band_powers psds freqs bands = Raise IndexError ∧
  (∀ dx mask row,
     Forall (fun b => b = false) mask → trapz dx (select mask row) = 0).
Proof.
  intros Hlen Hne. split.
  - unfold compute_band_powers. apply band_loop_short; [exact Hlen|].
    destruct bands as [[|b bs]|]; [done|done|done].
  - intros dx mask row Hmask. by rewrite select_all_false.
Qed.

Lemma band_integrator_needs_two_frequencies_witness :
  compute_band_powers one_bin_psds [50] None = Raise IndexError ∧
  (∀ dx mask row,
     Forall (fun b => b = false) mask → trapz dx (select mask row) = 0).
Proof.
  apply (band_integrator_needs_two_frequencies one_bin_psds [50] None).
  - simpl. lia.
  - discriminate.
Defined.

(** ** Ratio calculator *)

Section RatioCalculator.

Lemma float64_overflow_gt_1 : 1 < float64_overflow.
Proof. reflexivity. Qed.


Lemma np_div_finite x y :
  ¬ y == 0 → Qabs (x / y) < float64_overflow → np_div x y = Some (x / y).
Proof.
  intros Hy Hlt. unfold np_div. destruct (Qeq_bool y 0) eqn:E.
  - by apply Qeq_bool_iff in E.
  - destruct (Qle_bool float64_overflow (Qabs (x / y))) eqn:E2; [|reflexivity].
    apply Qle_bool_iff in E2. exfalso. by apply (Qlt_not_le _ _ Hlt).
Qed.

Lemma np_div_overflow x y :
  float64_overflow <= Qabs (x / y) → np_div x y = None.
Proof.
  intros Hle. unfold np_div. destruct (Qeq_bool y 0); [reflexivity|].
  apply Qle_bool_iff in Hle. by rewrite Hle.
Qed.

Lemma Qabs_div_pos x y : 0 < y → Qabs (x / y) == Qabs x / y.
Proof.
  intros Hy. unfold Qdiv. rewrite Qabs_Qmult.
  rewrite (Qabs_pos (/ y)); [reflexivity|].
  apply Qinv_le_0_compat. by apply Qlt_le_weak.
Qed.

(** A quotient of a power that is not negative by a positive denominator
    is finite below the overflow bound. *)
Lemma np_div_nonneg x y :
  0 <= x → 0 < y →
  (x / y < float64_overflow → np_div x y = Some (x / y)) ∧
  (float64_overflow <= x / y → np_div x y = None).
Proof.
  intros Hx Hy.
  assert (Habs : Qabs (x / y) == x / y).
  { rewrite Qabs_div_pos by exact Hy. by rewrite (Qabs_pos x). }
  split; intros Hb.
  - apply np_div_finite; [lra|]. by rewrite Habs.
  - apply np_div_overflow. by rewrite Habs.
Qed.

Lemma np_div_zero x y : y == 0 → np_div x y = None.
Proof.
  intros Hy. unfold np_div. by apply Qeq_bool_iff in Hy as ->.
Qed.

Lemma row_div_lookup (a b : list Q) :
  length a = length b →
  ∃ r, row_div a b = Ok r ∧ length r = length a ∧
       ∀ i x y, a !! i = Some x → b !! i = Some y →
                r !! i = Some (np_div x y).
Proof.
  revert b. induction a as [|x a IH]; intros [|y b] Hlen; simpl in Hlen;
    try discriminate.
  - exists []. repeat split. intros i ? ? H. by rewrite lookup_nil in H.
  - destruct (IH b) as (r & Hr & Hl & Hcell); [congruence|].
    exists (np_div x y :: r). simpl. rewrite Hr. simpl.
    repeat split; [by rewrite Hl|].
    intros [|i] x' y'; simpl; [by intros [= ->] [= ->] | apply Hcell].
Qed.

Lemma array_div_cell (a b : matrix) :
  map length a = map length b →
  ∃ m, array_div a b = Ok m ∧
       ∀ e c x y, cell a e c = Some x → cell b e c = Some y →
                  cell m e c = Some (np_div x y).
Proof.
  revert b. induction a as [|ra a IH]; intros [|rb b] Hsh; simpl in Hsh;
    try discriminate.
  - exists []. split; [reflexivity|]. intros e c ? ? H. by destruct e.
  - injection Hsh as Hrow Hsh.
    destruct (row_div_lookup ra rb Hrow) as (r & Hr & _ & Hrc).
    destruct (IH b Hsh) as (m & Hm & Hmc).
    exists (r :: m). simpl. rewrite Hr. simpl. rewrite Hm. simpl.
    split; [reflexivity|].
    intros [|e] c x y; unfold cell; simpl; [apply Hrc | apply Hmc].
Qed.


Lemma add_scalar_shape (a : matrix) (k : Q) :
  map length (add_scalar a k) = map length a.
Proof.
  unfold add_scalar. rewrite map_map. apply map_ext. intros row.
  apply length_map.
Qed.



Lemma bind_Ok {A C : Type} (a : A) (k : A → result C) :
  (Ok a ≫= k) = k a.
Proof. reflexivity. Qed.

Lemma getitem_Some {V : Type} (d : gmap string V) (k : string) (v : V) :
  d !! k = Some v → getitem d k = Ok v.
Proof. unfold getitem. by intros ->. Qed.

Lemma row_div_length (a b : list Q) (r : list (option Q)) :
  row_div a b = Ok r → length a = length b ∧ length r = length a.
Proof.
  revert b r. induction a as [|x a IH]; intros [|y b] r; simpl;
    try discriminate.
  - by intros [= <-].
  - destruct (row_div a b) as [r'|] eqn:Hr; [|discriminate]. simpl.
    intros [= <-]. destruct (IH b r' Hr) as [Hl1 Hl2]. simpl. lia.
Qed.

Lemma array_div_inv (a b : matrix) (m : list (list (option Q))) :
  array_div a b = Ok m →
  map length a = map length b ∧ map length m = map length a.
Proof.
  revert b m. induction a as [|ra a IH]; intros [|rb b] m; simpl;
    try discriminate.
  - by intros [= <-].
  - destruct (row_div ra rb) as [r|] eqn:Hr; [|discriminate]. simpl.
    destruct (array_div a b) as [m'|] eqn:Hm; [|discriminate]. simpl.
    intros [= <-]. destruct (row_div_length _ _ _ Hr) as [Hl1 Hl2].
    destruct (IH b m' Hm) as [Hs1 Hs2]. simpl. split; congruence.
Qed.

Lemma size2_shape {A C : Type} (a : list (list A)) (b : list (list C)) :
  map length a = map length b → size2 a = size2 b.
Proof.
  unfold size2. revert b. induction a as [|ra a IH]; intros [|rb b] Hs;
    simpl in Hs; try discriminate; [reflexivity|].
  injection Hs as Hr Hs. simpl. rewrite !length_app, Hr. f_equal. by apply IH.
Qed.

(** On a table, the outcome of [compute_ratios] with its summary. *)
Lemma compute_ratios_table (bp : gmap string matrix)
  (delta theta alpha : matrix) :
  band_power_table bp delta theta alpha →
  ∃ dar tar,
    array_div delta (add_scalar alpha epsilon) = Ok dar ∧
    array_div theta (add_scalar alpha epsilon) = Ok tar ∧
    map length dar = map length alpha ∧
    map length tar = map length alpha ∧
    compute_ratios bp
    = if Nat.eqb (size2 alpha) 0 then Raise ValueError
      else Ok (<["TAR"%string := tar]> (<["DAR"%string := dar]> ∅)).
Proof.
  intros (Hd & Ht & Ha & Hsd & Hst).
  destruct (array_div_cell delta (add_scalar alpha epsilon))
    as (dar & Hdar & _); [by rewrite add_scalar_shape|].
  destruct (array_div_cell theta (add_scalar alpha epsilon))
    as (tar & Htar & _); [by rewrite add_scalar_shape|].
  destruct (array_div_inv _ _ _ Hdar) as [_ Hsdar].
  destruct (array_div_inv _ _ _ Htar) as [_ Hstar].
  rewrite Hsd in Hsdar. rewrite Hst in Hstar.
  exists dar, tar. repeat split; try done.
  assert (Hcr : ratio_arrays bp
                = Ok (<["TAR"%string := tar]> (<["DAR"%string := dar]> ∅))).
  { unfold ratio_arrays. rewrite (getitem_Some _ _ _ Hd), bind_Ok.
    rewrite (getitem_Some _ _ _ Ht), bind_Ok.
    rewrite (getitem_Some _ _ _ Ha), bind_Ok.
    by rewrite Hdar, bind_Ok, Htar, bind_Ok. }
  unfold compute_ratios. rewrite Hcr, bind_Ok.
  rewrite (getitem_Some _ "DAR" dar)
    by (by rewrite lookup_insert_ne, lookup_insert_eq).
  rewrite bind_Ok, (getitem_Some _ "TAR" tar) by apply lookup_insert_eq.
  rewrite bind_Ok.
  rewrite (size2_shape dar alpha Hsdar), (size2_shape tar alpha Hstar).
  by destruct (Nat.eqb (size2 alpha) 0).
Qed.

End RatioCalculator.




(** The ratios of [example_table]: where alpha is 0 the ratio is the power
    divided by the float64 value of [1e-10], just below the power times
    1e10. *)
Example ratio_run :
  match compute_ratios example_table with
  | Ok ratios =>
      ratios !! "DAR"%string
      = Some [[Some (3 / (0 + epsilon)); Some (1 / (4 + epsilon))]] ∧
      29999999999 < 3 / (0 + epsilon) ∧ 3 / (0 + epsilon) < 30000000000
  | Raise _ => False
  end.
Proof. vm_compute. repeat split; reflexivity. Qed.

(** ** Rounding and index arithmetic *)

Section Rounding.

Lemma round_half_even_comp (x y : Q) :
  x == y → round_half_even x = round_half_even y.
Proof.
  intros H. unfold round_half_even. cbv zeta.
  rewrite (Qfloor_comp _ _ H).
  assert (Hr : x - inject_Z (Qfloor y) == y - inject_Z (Qfloor y))
    by (rewrite H; reflexivity).
  rewrite (Qcompare_comp _ _ Hr _ _ (Qeq_refl _)). reflexivity.
Qed.

Lemma round_half_even_Z (z : Z) : round_half_even (inject_Z z) = z.
Proof.
  unfold round_half_even. cbv zeta. rewrite Qfloor_Z.
  assert (Hr : inject_Z z - inject_Z z == 0) by ring.
  rewrite (Qcompare_comp _ _ Hr _ _ (Qeq_refl _)). reflexivity.
Qed.

Lemma round_half_even_0 (sf : Q) : round_half_even (0 * sf) = 0%Z.
Proof.
  rewrite (round_half_even_comp (0 * sf) (inject_Z 0)) by ring.
  apply round_half_even_Z.
Qed.

(** Rounding stays within one of the floor. *)
Lemma round_half_even_bounds (x : Q) :
  (Qfloor x ≤ round_half_even x ≤ Qfloor x + 1)%Z.
Proof.
  unfold round_half_even. cbv zeta.
  destruct (Qcompare _ _); [destruct (Z.even _)| |]; lia.
Qed.

Lemma round_half_even_nonpos (x : Q) : x <= 0 → (round_half_even x ≤ 0)%Z.
Proof.
  intros Hx. pose proof (Qfloor_resp_le _ _ Hx) as Hf.
  change (Qfloor 0) with 0%Z in Hf.
  destruct (Z.eq_dec (Qfloor x) 0%Z) as [H0|H0].
  - assert (Hx0 : x == 0).
    { apply Qle_antisym; [exact Hx|].
      pose proof (Qfloor_le x) as H. rewrite H0 in H. exact H. }
    rewrite (round_half_even_comp _ _ Hx0). reflexivity.
  - pose proof (round_half_even_bounds x). lia.
Qed.

(** Ceiling of a quotient of integers. *)
Lemma Qceiling_div (a n : Z) :
  (0 < n)%Z → Qceiling (inject_Z a / inject_Z n) = ((a + n - 1) / n)%Z.
Proof.
  intros Hn. unfold Qceiling.
  assert (H : - (inject_Z a / inject_Z n) == inject_Z (- a) / inject_Z n).
  { rewrite inject_Z_opp. field. intros H0.
    apply (inject_Z_injective n 0) in H0. lia. }
  rewrite (Qfloor_comp _ _ H), <- Zdiv_Qdiv.
  Z.div_mod_to_equations. nia.
Qed.

End Rounding.

(** ** Epoch segmenter *)

Section ListFacts.

Context {A C : Type}.

Lemma zip_fmap_diag (f : A → C) (l : list A) :
  zip l (f <$> l) = (fun k => (k, f k)) <$> l.
Proof. induction l as [|x l IH]; simpl; [reflexivity | f_equal; exact IH]. Qed.

Lemma filter_fmap_comm (g : A → C) (P : C → Prop) `{!∀ x, Decision (P x)}
  (l : list A) :
  filter P (g <$> l) = g <$> filter (fun x => P (g x)) l.
Proof.
  induction l as [|x l IH]; [reflexivity|].
  rewrite fmap_cons, !filter_cons, IH.
  destruct (decide (P (g x))); reflexivity.
Qed.


End ListFacts.

(** A predicate that is downward closed on [0 .. L) selects a prefix of
    [seq 0 L]. *)
Lemma filter_seq_prefix (P : nat → Prop) `{!∀ k, Decision (P k)} (L : nat) :
  (∀ k k', (k ≤ k')%nat → (k' < L)%nat → P k' → P k) →
  ∃ m, (m ≤ L)%nat ∧ filter P (seq 0 L) = seq 0 m ∧
       ∀ k, (k < L)%nat → (P k ↔ (k < m)%nat).
Proof.
  induction L as [|L IH]; intros Hanti.
  - exists 0%nat. split; [lia|]. split; [done|]. intros k Hk. lia.
  - destruct IH as (m & Hm & Hfil & Hchar).
    { intros k k' Hk Hk'. apply Hanti; lia. }
    rewrite seq_S, filter_app, Hfil. simpl.
    rewrite filter_cons, filter_nil. destruct (decide (P L)) as [HL|HL].
    + assert (m = L) as ->.
      { destruct (decide (m = L)) as [|Hne]; [done|].
        assert (Hlt : (m < L)%nat) by lia.
        assert (HPm : P m) by (apply (Hanti m L); [lia|lia|exact HL]).
        apply (Hchar m Hlt) in HPm. lia. }
      exists (S L). split; [lia|]. split; [by rewrite seq_S|].
      intros k Hk. destruct (decide (k = L)) as [->|Hne].
      * split; [lia | done].
      * rewrite (Hchar k) by lia. lia.
    + exists m. split; [lia|]. split; [by rewrite app_nil_r|].
      intros k Hk. destruct (decide (k = L)) as [->|Hne].
      * split; [done | lia].
      * apply Hchar. lia.
Qed.

Section Segmenter.

Context (B : Backend).

Lemma arange_int_nonpos_step (stop : Z) (step : Q) :
  (1 ≤ stop)%Z → step <= 0 → arange_int stop step = [].
Proof.
  intros Hstop Hstep. unfold arange_int.
  assert (Hq : inject_Z stop / step <= 0).
  { destruct step as [[|p|p] q]; unfold Qle, Qdiv, Qinv, Qmult in *;
      simpl in *; try lia. }
  apply Qceiling_resp_le in Hq. change (Qceiling 0) with 0%Z in Hq.
  by replace (Z.to_nat _) with 0%nat by lia.
Qed.

(** When the events exist the step [sfreq * duration] is positive and the
    events are the truncated multiples of the step. *)
Lemma make_fixed_length_events_inv (raw : Raw) (d : Q) (ts : list Z) :
  make_fixed_length_events raw d 0 = Ok ts →
  0 < sfreq raw * d ∧ ts ≠ [] ∧
  ts = arange_int
         (Z.of_nat (n_times raw) - round_half_even (sfreq raw * d) + 1)
         (sfreq raw * (d - 0)).
Proof.
  unfold make_fixed_length_events.
  destruct (negb _); [discriminate|].
  match goal with |- context [arange_int ?a ?b] => set (stop := a); set (step := b) end.
  destruct (Nat.eqb (length (arange_int stop step)) 0) eqn:E; [discriminate|].
  intros [= <-]. apply Nat.eqb_neq in E.
  assert (Hne : arange_int stop step ≠ []) by (intros H; by rewrite H in E).
  split; [|done].
  destruct (Qlt_le_dec 0 (sfreq raw * d)) as [Hpos|Hneg]; [exact Hpos|].
  exfalso. apply Hne, arange_int_nonpos_step.
  - pose proof (round_half_even_nonpos _ Hneg). unfold stop. lia.
  - unfold step.
    assert (Hs : sfreq raw * (d - 0) == sfreq raw * d) by ring.
    rewrite Hs. exact Hneg.
Qed.

(** The shape of the epochs that [create_epochs] returns: the events kept
    are the first [m] of the [L] events, namely those whose window of
    [epoch_n_times] samples ends inside the recording. *)
Lemma create_epochs_inv (raw : Raw) (d : Q) (b : option (Q * Q))
  (epochs : Epochs) :
  let step := sfreq raw * (d - 0) in
  let ev := fun k : nat => Qfloor (inject_Z (Z.of_nat k) * step) in
  let np := epoch_n_times (sfreq raw) 0 d in
  create_epochs B raw d b = Ok epochs →
  ∃ L m,
    (m ≤ L)%nat ∧ (0 < L)%nat ∧ 0 < sfreq raw * d ∧
    L = Z.to_nat (Qceiling (inject_Z
          (Z.of_nat (n_times raw) - round_half_even (sfreq raw * d) + 1)
          / step)) ∧
    (∀ k, (k < L)%nat →
       ((k < m)%nat ↔ (ev k + np ≤ Z.of_nat (n_times raw))%Z)) ∧
    selection epochs = seq 0 m ∧
    e_data epochs
    = map (fun k =>
             map (fun c =>
                    rescale B b (sfreq raw)
                      (slice (Z.to_nat (ev k)) (Z.to_nat np) c))
               (samples raw))
        (seq 0 m) ∧
    e_ch_names epochs = ch_names raw.
Proof.
  intros step ev np. unfold create_epochs.
  destruct (make_fixed_length_events raw d 0) as [ts|] eqn:Hts; [|discriminate].
  simpl. intros [= <-].
  apply make_fixed_length_events_inv in Hts as (Hpos & Hne & ->).
  fold step. unfold arange_int.
  set (L := Z.to_nat _). fold ev.
  assert (Hstep : 0 < step).
  { unfold step. assert (Hs : sfreq raw * (d - 0) == sfreq raw * d) by ring.
    by rewrite Hs. }
  assert (Hev0 : ∀ k, (0 ≤ ev k)%Z).
  { intros k. change 0%Z with (Qfloor 0). apply Qfloor_resp_le.
    apply Qmult_le_0_compat; [|by apply Qlt_le_weak].
    change 0 with (inject_Z 0). rewrite <- Zle_Qle. lia. }
  assert (Hmono : ∀ k k', (k ≤ k')%nat → (ev k ≤ ev k')%Z).
  { intros k k' Hk. apply Qfloor_resp_le.
    apply Qmult_le_compat_r; [|by apply Qlt_le_weak].
    rewrite <- Zle_Qle. lia. }
  assert (Hfit : ∀ k, window_fits raw 0 d (ev k) = true
                      ↔ (ev k + np ≤ Z.of_nat (n_times raw))%Z).
  { intros k. unfold window_fits. rewrite round_half_even_0, Z.add_0_r.
    fold np. rewrite andb_true_iff, Z.leb_le, Z.leb_le.
    pose proof (Hev0 k). lia. }
  destruct (filter_seq_prefix
              (fun k => window_fits raw 0 d (ev k) = true) L)
    as (m & Hm & Hfil & Hchar).
  { intros k k' Hk _. rewrite !Hfit. pose proof (Hmono k k' Hk). lia. }
  exists L, m. split; [exact Hm|].
  assert (HL : (0 < L)%nat).
  { destruct (decide (L = 0%nat)) as [HL0|]; [|lia].
    exfalso. apply Hne. unfold arange_int.
    change (Z.to_nat _) with L. by rewrite HL0. }
  split; [exact HL|]. split; [exact Hpos|]. split; [reflexivity|].
  split; [intros k Hk; by rewrite <- Hchar, Hfit|].
  unfold new_Epochs. simpl.
  rewrite length_map, length_seq, zip_fmap_diag.
  rewrite (filter_fmap_comm (fun k => (k, ev k))
             (fun p => window_fits raw 0 d p.2 = true)).
  simpl. rewrite Hfil.
  split; [|split; [|reflexivity]].
  - rewrite <- list_fmap_compose. apply list_fmap_id.
  - rewrite <- list_fmap_compose. apply list_fmap_ext. intros _ k _. simpl.
    by rewrite round_half_even_0, Z.add_0_r.
Qed.

Lemma arange_int_integral (stop n : Z) (step : Q) :
  (0 < n)%Z → step == inject_Z n →
  arange_int stop step
  = map (fun k => (Z.of_nat k * n)%Z) (seq 0 (Z.to_nat ((stop + n - 1) / n))).
Proof.
  intros Hn Hstep. unfold arange_int.
  assert (Hq : inject_Z stop / step == inject_Z stop / inject_Z n)
    by (by rewrite Hstep).
  rewrite (Qceiling_comp _ _ Hq), Qceiling_div by exact Hn.
  apply map_ext. intros k.
  assert (Hk : inject_Z (Z.of_nat k) * step == inject_Z (Z.of_nat k * n))
    by (by rewrite Hstep, inject_Z_mult).
  by rewrite (Qfloor_comp _ _ Hk), Qfloor_Z.
Qed.

(** With an integral number [n] of samples per [duration], the events are
    the multiples of [n] up to [n_times - n]; there is none, and the call
    raises, exactly when the recording is shorter than [n]. *)
Lemma make_fixed_length_events_integral (raw : Raw) (d : Q) (n : Z) :
  0 < d → (0 < n)%Z → sfreq raw * d == inject_Z n →
  make_fixed_length_events raw d 0
  = if (Z.of_nat (n_times raw) <? n)%Z then Raise ValueError
    else Ok (map (fun k => (Z.of_nat k * n)%Z)
               (seq 0 (Z.to_nat (Z.of_nat (n_times raw) / n)))).
Proof.
  intros Hd Hn Hstep. unfold make_fixed_length_events.
  assert (Hchk : Qle_bool 0 0 && Qlt_bool 0 d = true).
  { unfold Qlt_bool. destruct (Qle_bool d 0) eqn:E; [|reflexivity].
    apply Qle_bool_iff in E. exfalso. by apply (Qlt_not_le 0 d). }
  rewrite Hchk. simpl negb. cbv iota.
  rewrite (round_half_even_comp _ _ Hstep), round_half_even_Z.
  assert (Hs : sfreq raw * (d - 0) == inject_Z n) by (by rewrite <- Hstep; ring).
  rewrite (arange_int_integral _ n _ Hn Hs), length_map, length_seq.
  replace (Z.of_nat (n_times raw) - n + 1 + n - 1)%Z
    with (Z.of_nat (n_times raw)) by lia.
  destruct (Z.ltb_spec (Z.of_nat (n_times raw)) n) as [Hlt|Hge].
  - rewrite Z.div_small by lia. reflexivity.
  - assert (1 ≤ Z.of_nat (n_times raw) / n)%Z
      by (apply Z.div_le_lower_bound; lia).
    destruct (Z.to_nat _) eqn:E; [lia|]. reflexivity.
Qed.

(** What the segmenter does when [epoch_duration * sfreq] is an integer
    [n]: it raises on a recording shorter than [n] samples; otherwise it
    returns [(n_times - 1) / n] epochs, numbered from 0; epoch [k] is the
    window of [n + 1] samples that starts at sample [k * n] of every
    channel. *)
Lemma create_epochs_integral (raw : Raw) (d : Q) (b : option (Q * Q)) (n : Z) :
  Forall (fun c => length c = n_times raw) (samples raw) →
  0 < d → (0 < n)%Z → sfreq raw * d == inject_Z n →
  ((Z.of_nat (n_times raw) < n)%Z →
   create_epochs B raw d b = Raise ValueError) ∧
  ((n ≤ Z.of_nat (n_times raw))%Z →
   ∃ epochs,
     create_epochs B raw d b = Ok epochs ∧
     len epochs = Z.to_nat ((Z.of_nat (n_times raw) - 1) / n) ∧
     selection epochs = seq 0 (len epochs) ∧
     e_data epochs
     = map (fun k =>
              map (fun c =>
                     rescale B b (sfreq raw)
                       (slice (k * Z.to_nat n) (Z.to_nat n + 1) c))
                (samples raw))
         (seq 0 (len epochs)) ∧
     Forall (fun ep =>
               length ep = length (samples raw) ∧
               Forall (fun c => length c = (Z.to_nat n + 1)%nat) ep)
       (e_data epochs)).
Proof.
  intros Hwf Hd Hn Hstep.
  pose proof (make_fixed_length_events_integral raw d n Hd Hn Hstep) as Hev.
  split.
  - intros Hlt. unfold create_epochs. rewrite Hev.
    destruct (Z.ltb_spec (Z.of_nat (n_times raw)) n); [reflexivity | lia].
  - intros Hge.
    destruct (create_epochs B raw d b) as [epochs|e] eqn:Hce.
    2:{ exfalso. unfold create_epochs in Hce. rewrite Hev in Hce.
        destruct (Z.ltb_spec (Z.of_nat (n_times raw)) n); [lia|discriminate]. }
    exists epochs. split; [reflexivity|].
    destruct (create_epochs_inv raw d b epochs Hce)
      as (L & m & Hm & HL & _ & HLeq & Hchar & Hsel & Hdata & _).
    assert (Hs : sfreq raw * (d - 0) == inject_Z n) by (by rewrite <- Hstep; ring).
    assert (Hevk : ∀ k : nat,
               Qfloor (inject_Z (Z.of_nat k) * (sfreq raw * (d - 0)))
               = (Z.of_nat k * n)%Z).
    { intros k.
      assert (Hk : inject_Z (Z.of_nat k) * (sfreq raw * (d - 0))
                   == inject_Z (Z.of_nat k * n))
        by (by rewrite Hs, inject_Z_mult).
      by rewrite (Qfloor_comp _ _ Hk), Qfloor_Z. }
    assert (Hnp : epoch_n_times (sfreq raw) 0 d = (n + 1)%Z).
    { unfold epoch_n_times. rewrite round_half_even_0.
      assert (Hc : d * sfreq raw == inject_Z n) by (by rewrite <- Hstep; ring).
      rewrite (round_half_even_comp _ _ Hc), round_half_even_Z. lia. }
    assert (HLn : L = Z.to_nat (Z.of_nat (n_times raw) / n)).
    { rewrite HLeq.
      assert (Hq : ∀ a, inject_Z a / (sfreq raw * (d - 0))
                        == inject_Z a / inject_Z n)
        by (intros a; by rewrite Hs).
      rewrite (Qceiling_comp _ _ (Hq _)), Qceiling_div by exact Hn.
      rewrite (round_half_even_comp _ _ Hstep), round_half_even_Z.
      f_equal. f_equal. lia. }
    assert (Hlen : len epochs = m)
      by (unfold len; by rewrite Hdata, length_map, length_seq).
    assert (Hchar' : ∀ k, (k < L)%nat →
              ((k < m)%nat ↔ (Z.of_nat k * n + (n + 1) ≤ Z.of_nat (n_times raw))%Z)).
    { intros k Hk. rewrite (Hchar k Hk), Hevk, Hnp. reflexivity. }
    assert (Hm_eq : m = Z.to_nat ((Z.of_nat (n_times raw) - 1) / n)).
    { assert (HLb : (Z.of_nat L * n ≤ Z.of_nat (n_times raw)
                     < (Z.of_nat L + 1) * n)%Z).
      { rewrite HLn, Z2Nat.id by (apply Z.div_pos; lia).
        pose proof (Z.mul_div_le (Z.of_nat (n_times raw)) n Hn).
        pose proof (Z.mul_succ_div_gt (Z.of_nat (n_times raw)) n Hn).
        lia. }
      apply Nat2Z.inj. rewrite Z2Nat.id by (apply Z.div_pos; lia).
      apply (Z.div_unique_pos _ _ _
               (Z.of_nat (n_times raw) - 1 - n * Z.of_nat m)); [|lia].
      destruct (decide (m = L)) as [->|Hne].
      - pose proof (proj1 (Hchar' (L - 1)%nat ltac:(lia)) ltac:(lia)). nia.
      - assert (HmL : (m < L)%nat) by lia.
        pose proof (Hchar' m HmL) as Hcm.
        assert (¬ (Z.of_nat m * n + (n + 1) ≤ Z.of_nat (n_times raw))%Z)
          by (rewrite <- Hcm; lia).
        destruct m as [|m'].
        + nia.
        + pose proof (proj1 (Hchar' m' ltac:(lia)) ltac:(lia)). nia. }
    split; [by rewrite Hlen|]. split; [by rewrite Hlen|].
    assert (Hdata' : e_data epochs
      = map (fun k =>
               map (fun c =>
                      rescale B b (sfreq raw)
                        (slice (k * Z.to_nat n) (Z.to_nat n + 1) c))
                 (samples raw))
          (seq 0 m)).
    { rewrite Hdata. apply map_ext. intros k. apply map_ext. intros c.
      rewrite Hevk, Hnp. do 2 f_equal; lia. }
    split; [by rewrite Hlen|].
    rewrite Hdata'. apply Forall_fmap, Forall_forall. intros k Hk.
    apply elem_of_seq in Hk as [_ Hk]. simpl.
    split; [apply length_map|].
    apply Forall_fmap. eapply Forall_impl; [exact Hwf|].
    intros c Hc. simpl. rewrite rescale_length. unfold slice.
    rewrite length_take, length_drop, Hc.
    pose proof (proj1 (Hchar' k ltac:(lia)) ltac:(lia)). nia.
Qed.

End Segmenter.

Lemma flat_recording_wf (n : nat) :
  Forall (fun c => length c = n_times (flat_recording n))
    (samples (flat_recording n)).
Proof.
  unfold n_times. simpl. repeat constructor.
Qed.

(** C1 (the code at a 20-second recording): 5120 samples at 256 Hz with
    [epoch_duration = 2.0], so [n_per_epoch = 512] and
    [5120 // 512 = 10].  The segmenter returns 9 epochs, not 10; every
    epoch holds 513 samples of each channel, not 512; epoch [k] is the
    window [512 k .. 512 k + 512], so that two consecutive epochs share a
    sample.  A recording of exactly 512 samples gives no error and no
    epoch. *)
Theorem segmenter_twenty_second_recording (B : Backend) :
  Z.of_nat (n_times (flat_recording samples_20s)) = 5120%Z ∧
  round_half_even (2 * sfreq (flat_recording samples_20s)) = 512%Z ∧
  (5120 / 512 = 10)%Z ∧
  (∃ epochs,
     create_epochs B (flat_recording samples_20s) 2 None = Ok epochs ∧
     len epochs = 9%nat ∧
     e_data epochs
     = map (fun k => map (fun c => slice (k * 512) 513 c)
                       (samples (flat_recording samples_20s)))
         (seq 0 9) ∧
     Forall (fun ep => Forall (fun c => length c = 513%nat) ep)
       (e_data epochs)) ∧
  (∃ epochs,
     create_epochs B (flat_recording 512) 2 None = Ok epochs ∧
     len epochs = 0%nat).
Proof.
  split; [by vm_compute|]. split; [by vm_compute|]. split; [by vm_compute|].
  split.
  - destruct (create_epochs_integral B (flat_recording samples_20s) 2 None 512)
      as [_ Hok];
      [apply flat_recording_wf | reflexivity | reflexivity | reflexivity |].
    destruct Hok as (epochs & Hce & Hlen & _ & Hdata & Hshape);
      [by vm_compute|].
    assert (Hlen9 : len epochs = 9%nat) by (rewrite Hlen; by vm_compute).
    exists epochs. split; [exact Hce|]. split; [exact Hlen9|]. split.
    + rewrite Hdata, Hlen9. apply map_ext. intros k. apply map_ext. intros c.
      by rewrite rescale_None.
    + eapply Forall_impl; [exact Hshape|]. by intros ep [_ Hc].
  - destruct (create_epochs_integral B (flat_recording 512) 2 None 512)
      as [_ Hok];
      [apply flat_recording_wf | reflexivity | reflexivity | reflexivity |].
    destruct Hok as (epochs & Hce & Hlen & _); [by vm_compute|].
    exists epochs. split; [exact Hce|]. rewrite Hlen. by vm_compute.
Qed.

(** ** Artifact rejector *)

Section RejectLogFacts.


Lemma bool_sum_cons (b : bool) (a : list bool) :
  bool_sum (b :: a) = ((if b then 1 else 0) + bool_sum a)%nat.
Proof. unfold bool_sum. rewrite filter_cons. by destruct b. Qed.


Lemma set_true_length (idx : list nat) (a : list bool) :
  length (set_true idx a) = length a.
Proof.
  unfold set_true. revert a. induction idx as [|i idx IH]; intros a;
    [reflexivity|].
  simpl. by rewrite IH, length_insert.
Qed.




End RejectLogFacts.

Section Rejector.

Context (B : Backend).


Lemma drop_bad_inv (t : Q) (e e' : Epochs) :
  drop_bad t e = Ok e' →
  zip (selection e') (e_data e')
  = filter (fun p => is_good t p.2 = true) (zip (selection e) (e_data e)) ∧
  selection e' = (zip (selection e') (e_data e')).*1 ∧
  e_data e' = (zip (selection e') (e_data e')).*2 ∧
  e_ch_names e' = e_ch_names e ∧
  (len e' ≤ len e)%nat.
Proof.
  unfold drop_bad. destruct (Qlt_bool t 0); [discriminate|].
  intros [= <-]. simpl. rewrite zip_fst_snd.
  repeat split; try reflexivity.
  unfold len. simpl. rewrite length_fmap.
  etrans; [apply length_filter|]. rewrite length_zip. lia.
Qed.



End Rejector.



Section Amplitude.

Context (B : Backend).





End Amplitude.



(** The run of the reference backend on the three-epoch recording: the
    calibration has too few epochs and the rejector raises. *)
Example sparse_policy_run :
  len (epochs_of (spike_recording 1537)) = 3%nat ∧
  reject_epochs reference_backend (epochs_of (spike_recording 1537))
  = Raise ValueError.
Proof. by vm_compute. Qed.


(** The run of the reference backend on the eleven-epoch recording: all
    eleven epochs survive the primary rejection and the second pass drops
    the one that holds the spike. *)
Example post_pass_run :
  match reject_epochs reference_backend (epochs_of (spike_recording samples_22s)) with
  | Ok (final, log) =>
      selection final = [0; 2; 3; 4; 5; 6; 7; 8; 9; 10]%nat ∧
      bool_sum (bad_epochs log) = 0%nat
  | Raise _ => False
  end.
Proof. vm_compute. split; reflexivity. Qed.

(** The run of the backend whose search keeps four of the eleven epochs:
    the second calibration has too few epochs and the rejector raises. *)
Example post_pass_few_survivors_run :
  len (epochs_of (spike_recording samples_22s)) = 11%nat ∧
  reject_epochs harsh_backend (epochs_of (spike_recording samples_22s))
  = Raise ValueError.
Proof. by vm_compute. Qed.

(** C6, as stated, fails: the recordings of this pipeline have two
    channels, and for ten or more epochs of two channels the candidate
    list handed to the search still holds 3 and 4. *)
Lemma adaptive_grid_not_capped_at_two_channels :
  length (e_ch_names (epochs_of (spike_recording samples_22s))) = 2%nat ∧
  len (epochs_of (spike_recording samples_22s)) = 11%nat ∧
  primary_rejection reference_backend (epochs_of (spike_recording samples_22s))
  = fit_transform reference_backend
      {| n_interpolate := [1; 2; 3; 4]%nat; cv := 5; random_state := 42;
         n_jobs := 1 |}
      (epochs_of (spike_recording samples_22s)) ∧
  filter (fun k => (2 < k)%nat)
    (n_interpolate (autoreject_for (len (epochs_of (spike_recording samples_22s)))))
  = [3; 4]%nat.
Proof. vm_compute. repeat split. Qed.

(** C6 (amended): for every epoch set with [n >= 10] epochs the primary
    rejection is the AutoReject search run with [min(5, n // 2)] folds,
    the fixed candidate list [1, 2, 3, 4] whatever the number of channels,
    the random seed 42 and one job. *)
Theorem adaptive_policy_parameters (B : Backend) (epochs : Epochs) :
  (10 ≤ len epochs)%nat →
  primary_rejection B epochs
  = fit_transform B
      {| n_interpolate := [1; 2; 3; 4]%nat;
         cv := Nat.min 5 (len epochs / 2);
         random_state := 42;
         n_jobs := 1 |}
      epochs ∧
  (2 ≤ Nat.min 5 (len epochs / 2) ≤ 5)%nat.
Proof.
  intros Hn. split.
  - unfold primary_rejection.
    by replace (len epochs <? 10)%nat with false
      by (symmetry; apply Nat.ltb_ge; lia).
  - pose proof (Nat.div_le_lower_bound (len epochs) 2 5 ltac:(lia) ltac:(lia)).
    lia.
Qed.

Lemma adaptive_policy_parameters_witness :
  primary_rejection reference_backend (epochs_of (spike_recording samples_22s))
  = fit_transform reference_backend
      {| n_interpolate := [1; 2; 3; 4]%nat;
         cv := Nat.min 5 (len (epochs_of (spike_recording samples_22s)) / 2);
         random_state := 42;
         n_jobs := 1 |}
      (epochs_of (spike_recording samples_22s)) ∧
  (2 ≤ Nat.min 5 (len (epochs_of (spike_recording samples_22s)) / 2) ≤ 5)%nat.
Proof.
  apply (adaptive_policy_parameters reference_backend).
  vm_compute. lia.
Defined.

(** ** Time limit *)

Section TimeLimit.






End TimeLimit.



(** ** Signal conditioner *)

Section Conditioner.

Context (B : Backend).

Lemma map_result_Forall2 {A C : Type} (f : A → result C) (l : list A)
  (l' : list C) :
  map_result f l = Ok l' ↔ Forall2 (fun x y => f x = Ok y) l l'.
Proof.
  revert l'. induction l as [|x l IH]; intros l'; simpl.
  - split; [intros [= <-]; constructor | intros H; by inversion H].
  - destruct (f x) as [y|e] eqn:Hx; simpl.
    + destruct (map_result f l) as [ys|e] eqn:Hl; simpl.
      * split.
        -- intros [= <-]. constructor; [exact Hx | by apply IH].
        -- intros H. inversion H as [|? y' ? ys' Hy Hys]; subst.
           apply IH in Hys. congruence.
      * split; [discriminate|].
        intros H. inversion H as [|? y' ? ys' Hy Hys]; subst.
        apply IH in Hys. discriminate.
    + split; [discriminate|].
      intros H. inversion H as [|? y' ? ys' Hy Hys]; subst. congruence.
Qed.

Lemma map_result_ok {A C : Type} (f : A → result C) (l : list A) :
  Forall (fun x => is_ok (f x) = true) l → ∃ l', map_result f l = Ok l'.
Proof.
  induction 1 as [|x l Hx _ [l' IH]]; simpl; [by eexists|].
  destruct (f x) as [y|]; [|discriminate]. simpl. rewrite IH. simpl.
  by eexists.
Qed.

Lemma raw_copy_inv (r : nat) (σ : store) (raw : Raw) (r1 : nat) (σ1 : store) :
  σ !! r = Some raw → raw_copy r σ = Ok (r1, σ1) →
  σ !! r1 = None ∧ r1 ≠ r ∧ σ1 = <[r1 := raw]> σ.
Proof.
  intros Hr. unfold raw_copy, deref. rewrite Hr. simpl. intros [= <- <-].
  assert (Hfresh : σ !! fresh (dom σ) = None)
    by (apply not_elem_of_dom, is_fresh).
  repeat split; [exact Hfresh|]. intros Heq. rewrite Heq in Hfresh. congruence.
Qed.

Lemma raw_filter_inv (r : nat) (l h : Q) (σ σ' : store) (raw : Raw) :
  σ !! r = Some raw → raw_filter B r l h σ = Ok σ' →
  ∃ chans,
    Forall2 (fun c y => fir_filter B (sfreq raw) l h c = Ok y)
      (samples raw) chans ∧
    map length chans = map length (samples raw) ∧
    σ' = <[r := {| ch_names := ch_names raw;
                   sfreq := sfreq raw;
                   samples := chans |}]> σ.
Proof.
  intros Hr. unfold raw_filter, deref. rewrite Hr. simpl.
  destruct (map_result _ _) as [chans|] eqn:Hm; [|discriminate].
  simpl. intros [= <-]. apply map_result_Forall2 in Hm.
  exists chans. split; [exact Hm|]. split; [|reflexivity].
  induction Hm as [|c y cs ys Hc _ IH]; [reflexivity|].
  simpl. by rewrite IH, (fir_filter_length B _ _ _ _ _ Hc).
Qed.

End Conditioner.

(** C8: the conditioner works on a copy.  If the filter accepts every
    channel the conditioner returns.  Whenever it returns, the reference it
    returns is a new one; the input buffer is, in the store left behind,
    what it was before, and so is every other object; the buffer returned
    has the channel names, the sampling rate and, channel by channel, the
    sample counts of the input; without ICA each of its channels is the
    0.5-40 Hz band-pass of the corresponding input channel alone; and the
    store that [preprocess_raw] leaves behind is the one left by the
    conditioner. *)
Theorem conditioner_keeps_input
  (B : Backend) (r : nat) (σ : store) (raw : Raw) :
  σ !! r = Some raw →
  (Forall (fun c => is_ok (fir_filter B (sfreq raw) (5 # 10) 40 c) = true)
     (samples raw) →
   ∃ r1 σ1, condition B r false σ = Ok (r1, σ1)) ∧
  (∀ apply_ica r1 σ1,
     condition B r apply_ica σ = Ok (r1, σ1) →
     r1 ≠ r ∧
     σ1 !! r = Some raw ∧
     (∀ r', r' ≠ r1 → σ1 !! r' = σ !! r') ∧
     (∃ raw1,
        σ1 !! r1 = Some raw1 ∧
        ch_names raw1 = ch_names raw ∧
        sfreq raw1 = sfreq raw ∧
        map length (samples raw1) = map length (samples raw) ∧
        (apply_ica = false →
         Forall2 (fun c y => fir_filter B (sfreq raw) (5 # 10) 40 c = Ok y)
           (samples raw) (samples raw1))) ∧
     (∀ d b res σ',
        preprocess_raw B r d b apply_ica σ = Ok (res, σ') → σ' = σ1)).
Proof.
  intros Hr. split.
  - intros Hok. destruct (map_result_ok _ _ Hok) as [chans Hchans].
    unfold condition, raw_copy, deref. rewrite Hr. simpl.
    unfold raw_filter, deref. rewrite lookup_insert_eq. simpl.
    rewrite Hchans. simpl. by eexists _, _.
  - intros apply_ica r1 σ1 Hcond.
    assert (Hcond' := Hcond).
    unfold condition in Hcond.
    destruct (raw_copy r σ) as [[r0 σ0]|] eqn:Hcopy; [|discriminate].
    simpl in Hcond.
    destruct (raw_copy_inv r σ raw r0 σ0 Hr Hcopy) as (Hnew & Hne & ->).
    destruct (raw_filter B r0 (5 # 10) 40 (<[r0 := raw]> σ)) as [σ2|] eqn:Hfil;
      [|discriminate].
    simpl in Hcond.
    destruct (raw_filter_inv B r0 _ _ _ σ2 raw (lookup_insert_eq _ _ _) Hfil)
      as (chans & Hchans & Hlens & ->).
    rewrite insert_insert_eq in Hcond.
    assert (Hfinal : ∃ raw1,
      r1 = r0 ∧ σ1 = <[r0 := raw1]> σ ∧
      ch_names raw1 = ch_names raw ∧ sfreq raw1 = sfreq raw ∧
      map length (samples raw1) = map length (samples raw) ∧
      (apply_ica = false →
       Forall2 (fun c y => fir_filter B (sfreq raw) (5 # 10) 40 c = Ok y)
         (samples raw) (samples raw1))).
    { destruct apply_ica.
      - unfold deref in Hcond. rewrite lookup_insert_eq in Hcond.
        simpl in Hcond.
        destruct (ica_fit_apply B _ _ _) as [raw'|] eqn:Hica; [|discriminate].
        simpl in Hcond. injection Hcond as <- <-.
        destruct (ica_shape B _ _ _ _ Hica) as (Hn & Hs & Hl). simpl in *.
        exists raw'. rewrite insert_insert_eq.
        repeat split; try done. by rewrite Hl.
      - injection Hcond as <- <-. eexists. repeat split; done. }
    destruct Hfinal as (raw1 & -> & -> & Hn & Hs & Hl & Hf).
    split; [exact Hne|].
    split; [by rewrite lookup_insert_ne|].
    split; [intros r' Hr'; by rewrite lookup_insert_ne|].
    split.
    + exists raw1. by rewrite lookup_insert_eq.
    + intros d b res σ' Hpre. unfold preprocess_raw in Hpre.
      rewrite Hcond' in Hpre. unfold deref in Hpre. simpl in Hpre.
      rewrite lookup_insert_eq in Hpre. simpl in Hpre.
      destruct (create_epochs B raw1 d b) as [e|]; [|discriminate].
      simpl in Hpre.
      destruct (reject_epochs B e) as [res'|]; [|discriminate].
      simpl in Hpre. by injection Hpre as _ <-.
Qed.

Lemma conditioner_keeps_input_witness :
  (Forall (fun c =>
             is_ok (fir_filter reference_backend (sfreq recording_10s)
                      (5 # 10) 40 c) = true)
     (samples recording_10s) →
   ∃ r1 σ1,
     condition reference_backend 0 false {[0%nat := recording_10s]}
     = Ok (r1, σ1)) ∧
  (∀ apply_ica r1 σ1,
     condition reference_backend 0 apply_ica {[0%nat := recording_10s]}
     = Ok (r1, σ1) →
     r1 ≠ 0%nat ∧
     σ1 !! 0%nat = Some recording_10s ∧
     (∀ r', r' ≠ r1 → σ1 !! r' = ({[0%nat := recording_10s]} : store) !! r') ∧
     (∃ raw1,
        σ1 !! r1 = Some raw1 ∧
        ch_names raw1 = ch_names recording_10s ∧
        sfreq raw1 = sfreq recording_10s ∧
        map length (samples raw1) = map length (samples recording_10s) ∧
        (apply_ica = false →
         Forall2 (fun c y =>
                    fir_filter reference_backend (sfreq recording_10s)
                      (5 # 10) 40 c = Ok y)
           (samples recording_10s) (samples raw1))) ∧
     (∀ d b res σ',
        preprocess_raw reference_backend 0 d b apply_ica
          {[0%nat := recording_10s]} = Ok (res, σ') →
        σ' = σ1)).
Proof.
  apply (conditioner_keeps_input reference_backend 0
           {[0%nat := recording_10s]} recording_10s).
  reflexivity.
Defined.

(** * Further properties *)

(** ** Band powers: keys, shape, sign *)

Section BandPowerTable.

Implicit Types (psds : ndarray3) (freqs row : list Q) (mask : list bool).

Lemma select_length mask row : (length (select mask row) ≤ bool_sum mask)%nat.
Proof.
  revert row. induction mask as [|b mask IH]; intros [|y row];
    try (simpl; lia).
  rewrite bool_sum_cons. specialize (IH row). destruct b; simpl; lia.
Qed.

Lemma select_Forall (P : Q → Prop) mask row :
  Forall P row → Forall P (select mask row).
Proof.
  intros H. revert mask. induction H as [|y row Hy _ IH]; intros [|b mask];
    simpl; try constructor.
  destruct b; [constructor; [exact Hy | apply IH] | apply IH].
Qed.

Lemma trapz_short dx (y : list Q) : (length y ≤ 1)%nat → trapz dx y = 0.
Proof. destruct y as [|y0 [|y1 y]]; simpl; [reflexivity|reflexivity|lia]. Qed.

Lemma trapz_nonneg dx (y : list Q) :
  0 <= dx → Forall (fun v => 0 <= v) y → 0 <= trapz dx y.
Proof.
  intros Hdx Hy. induction Hy as [|y0 y H0 Hy IH]; [apply Qle_refl|].
  destruct Hy as [|y1 y H1 Hy]; [apply Qle_refl|].
  change (trapz dx (y0 :: y1 :: y))
    with (dx * (y1 + y0) / 2 + trapz dx (y1 :: y)).
  assert (Hp : 0 <= dx * (y1 + y0)) by (apply Qmult_le_0_compat; lra).
  apply Qle_trans with (0 + 0); [apply Qle_refl|].
  apply Qplus_le_compat; [|exact IH].
  apply Qle_shift_div_l; [reflexivity|]. by rewrite Qmult_0_l.
Qed.

(** The loop binds every band of the list and nothing else, each to an
    array of the shape [(n_epochs, n_channels)]. *)
Lemma band_loop_dom_shape psds freqs f0 f1 rest bands :
  freqs = f0 :: f1 :: rest →
  power_spectrum psds freqs →
  ∀ acc, ∃ bp,
    band_loop psds freqs bands acc = Ok bp ∧
    dom bp = dom acc ∪ list_to_set bands.*1 ∧
    ∀ name m, bp !! name = Some m →
      acc !! name = Some m ∨
      (length m = n_epochs psds ∧
       Forall (fun r => length r = n_channels psds) m).
Proof.
  intros Hf [[Hne Hcells] Hlen].
  induction bands as [|[bn [a b]] bands IH]; intros acc.
  - exists acc. split; [reflexivity|].
    split; [simpl; by rewrite union_empty_r_L|]. by left.
  - simpl. rewrite (band_power_ok _ _ _ _ _ _ _ Hf Hlen). simpl.
    set (p := map (map (fun row =>
                 trapz (f1 - f0) (select (freq_mask freqs a b) row)))
               (cells psds)).
    destruct (IH (<[bn := p]> acc)) as (bp & Hbp & Hdom & Hshape).
    exists bp. split; [exact Hbp|]. split.
    + rewrite Hdom, dom_insert_L. simpl.
      rewrite (comm_L (∪) {[bn]} (dom acc)). symmetry. apply assoc_L, _.
    + intros name m Hm. destruct (Hshape name m Hm) as [Hacc|Hsh]; [|by right].
      destruct (decide (bn = name)) as [->|Hne'].
      * rewrite lookup_insert_eq in Hacc. injection Hacc as <-. right.
        unfold p. rewrite length_map. split; [exact Hne|].
        apply Forall_fmap. eapply Forall_impl; [exact Hcells|].
        intros ep [Hep _]. simpl. by rewrite length_map.
      * rewrite lookup_insert_ne in Hacc by exact Hne'. by left.
Qed.

End BandPowerTable.

(** X1 (band-power table): on a power spectrum with at least two
    frequencies, for the default bands and for every list of bands,
    [compute_band_powers] returns a dictionary whose keys are exactly the
    band names and whose every array has the shape
    [(n_epochs, n_channels)]. *)
Theorem band_powers_keys_and_shape
  (psds : ndarray3) (freqs : list Q)
  (bands : option (list (string * (Q * Q)))) :
  power_spectrum psds freqs →
  (2 ≤ length freqs)%nat →
  ∃ bp,
    compute_band_powers psds freqs bands = Ok bp ∧
    dom bp
    = list_to_set (match bands with None => FREQ_BANDS | Some b => b end).*1 ∧
    ∀ name m, bp !! name = Some m →
      length m = n_epochs psds ∧
      Forall (fun r => length r = n_channels psds) m.
Proof.
  intros Hps H2.
  destruct freqs as [|f0 [|f1 rest]] eqn:Hf; simpl in H2; try lia.
  rewrite <- Hf in *.
  destruct (band_loop_dom_shape psds freqs f0 f1 rest
              (match bands with None => FREQ_BANDS | Some b => b end)
              Hf Hps ∅) as (bp & Hbp & Hdom & Hshape).
  exists bp. split; [exact Hbp|]. split.
  - by rewrite Hdom, dom_empty_L, union_empty_l_L.
  - intros name m Hm. destruct (Hshape name m Hm) as [Hacc|Hsh]; [|exact Hsh].
    by rewrite lookup_empty in Hacc.
Qed.

Lemma band_powers_keys_and_shape_witness :
  ∃ bp,
    compute_band_powers four_bin_psds [5 # 10; 1; 15 # 10; 2] None = Ok bp ∧
    dom bp = list_to_set FREQ_BANDS.*1 ∧
    ∀ name m, bp !! name = Some m →
      length m = n_epochs four_bin_psds ∧
      Forall (fun r => length r = n_channels four_bin_psds) m.
Proof.
  apply (band_powers_keys_and_shape four_bin_psds [5 # 10; 1; 15 # 10; 2] None).
  - split; [|reflexivity]. split; [reflexivity|]. repeat constructor.
  - simpl. lia.
Defined.

(** X2 (one bin is no area): a band whose closed interval holds at most
    one frequency bin gets the power 0 in every cell, whatever the value of
    the spectrum in that bin. *)
Theorem band_with_one_bin_has_zero_power
  (psds : ndarray3) (freqs : list Q) (name : string) (fmin fmax : Q) :
  power_spectrum psds freqs →
  (2 ≤ length freqs)%nat →
  (name, (fmin, fmax)) ∈ FREQ_BANDS →
  (bool_sum (freq_mask freqs fmin fmax) ≤ 1)%nat →
  ∃ bp,
    compute_band_powers psds freqs None = Ok bp ∧
    bp !! name = Some (map (map (fun _ => 0)) (cells psds)).
Proof.
  intros [_ Hlen] H2 Hband Hone.
  destruct freqs as [|f0 [|f1 rest]] eqn:Hf; simpl in H2; try lia.
  rewrite <- Hf in *.
  destruct (band_loop_lookup psds freqs f0 f1 rest FREQ_BANDS Hf Hlen
              FREQ_BANDS_NoDup ∅) as (bp & Hbp & Hin & _).
  exists bp. split; [exact Hbp|]. rewrite (Hin _ _ _ Hband). f_equal.
  apply map_ext. intros ep. apply map_ext. intros row.
  apply trapz_short. etrans; [apply select_length | exact Hone].
Qed.

(** A spectrum with a large value in its only alpha bin, at 10 Hz. *)
Lemma band_with_one_bin_has_zero_power_witness :
  ∃ bp,
    compute_band_powers
      {| n_epochs := 1; n_channels := 1; n_freqs := 3;
         cells := [[[1; 1000000; 1]]] |} [5; 10; 15] None = Ok bp ∧
    bp !! "alpha"%string = Some [[0]].
Proof.
  apply (band_with_one_bin_has_zero_power
           {| n_epochs := 1; n_channels := 1; n_freqs := 3;
              cells := [[[1; 1000000; 1]]] |} [5; 10; 15] "alpha" 8 13).
  - split; [|reflexivity]. split; [reflexivity|]. repeat constructor.
  - simpl. lia.
  - unfold FREQ_BANDS. do 2 apply list_elem_of_further. apply list_elem_of_here.
  - vm_compute. lia.
Defined.

(** X3 (sign): when no value of the spectrum is negative and the first
    two frequencies do not decrease, no band power is negative. *)
Theorem band_powers_nonnegative
  (psds : ndarray3) (freqs : list Q) (f0 f1 : Q) (rest : list Q) :
  power_spectrum psds freqs →
  freqs = f0 :: f1 :: rest →
  f0 <= f1 →
  Forall (Forall (Forall (fun v => 0 <= v))) (cells psds) →
  ∃ bp,
    compute_band_powers psds freqs None = Ok bp ∧
    ∀ name m e c x,
      bp !! name = Some m → cell m e c = Some x → 0 <= x.
Proof.
  intros [_ Hlen] Hf Hinc Hpos.
  destruct (band_loop_lookup psds freqs f0 f1 rest FREQ_BANDS Hf Hlen
              FREQ_BANDS_NoDup ∅) as (bp & Hbp & Hin & Hout).
  exists bp. split; [exact Hbp|].
  intros name m e c x Hm Hx.
  destruct (decide (name ∈ FREQ_BANDS.*1)) as [Hel|Hnel].
  - apply list_elem_of_fmap in Hel as ([name' [fmin fmax]] & Heq & Hel).
    simpl in Heq. subst name'.
    rewrite (Hin _ _ _ Hel) in Hm. injection Hm as <-.
    unfold cell in Hx. rewrite list_lookup_fmap in Hx.
    destruct (cells psds !! e) as [ep|] eqn:Hep; [|done]. simpl in Hx.
    rewrite list_lookup_fmap in Hx.
    destruct (ep !! c) as [row|] eqn:Hrow; [|done]. injection Hx as <-.
    apply trapz_nonneg; [lra|]. apply select_Forall.
    eapply Forall_lookup_1 in Hpos; [|exact Hep].
    eapply Forall_lookup_1 in Hpos; [|exact Hrow]. exact Hpos.
  - rewrite (Hout _ Hnel), lookup_empty in Hm. done.
Qed.

Lemma band_powers_nonnegative_witness :
  ∃ bp,
    compute_band_powers four_bin_psds [5 # 10; 1; 15 # 10; 2] None = Ok bp ∧
    ∀ name m e c x,
      bp !! name = Some m → cell m e c = Some x → 0 <= x.
Proof.
  apply (band_powers_nonnegative four_bin_psds [5 # 10; 1; 15 # 10; 2]
           (5 # 10) 1 [15 # 10; 2]).
  - split; [|reflexivity]. split; [reflexivity|]. repeat constructor.
  - reflexivity.
  - discriminate.
  - repeat constructor; discriminate.
Defined.

(** ** Ratios: outcomes of the whole function *)

(** X4 (ratios, all outcomes): [compute_ratios] raises [KeyError] when one
    of the keys delta, theta, alpha is missing; on a table whose three
    arrays have one shape it raises [ValueError] when the arrays have no
    cell (the summary takes the minimum of an empty array), and otherwise
    returns a dictionary with exactly the keys DAR and TAR, both arrays
    having the shape of the input; an entry under any other key does not
    change the outcome. *)
Theorem compute_ratios_outcomes (bp : gmap string matrix) :
  ((bp !! "delta"%string = None ∨ bp !! "theta"%string = None
    ∨ bp !! "alpha"%string = None) →
   compute_ratios bp = Raise KeyError) ∧
  (∀ delta theta alpha,
     band_power_table bp delta theta alpha →
     (size2 alpha = 0%nat → compute_ratios bp = Raise ValueError) ∧
     ((0 < size2 alpha)%nat →
      ∃ ratios dar tar,
        compute_ratios bp = Ok ratios ∧
        dom ratios = {["DAR"%string; "TAR"%string]} ∧
        ratios !! "DAR"%string = Some dar ∧
        ratios !! "TAR"%string = Some tar ∧
        map length dar = map length alpha ∧
        map length tar = map length alpha)) ∧
  (∀ key v,
     key ≠ "delta"%string → key ≠ "theta"%string → key ≠ "alpha"%string →
     compute_ratios (<[key := v]> bp) = compute_ratios bp).
Proof.
  split; [|split].
  - unfold compute_ratios, ratio_arrays, getitem.
    destruct (bp !! "delta"%string); simpl; [|done].
    destruct (bp !! "theta"%string); simpl; [|done].
    destruct (bp !! "alpha"%string); simpl; [|done].
    intros [?|[?|?]]; done.
  - intros delta theta alpha Htable.
    destruct (compute_ratios_table bp delta theta alpha Htable)
      as (dar & tar & _ & _ & Hsdar & Hstar & Hprinted).
    split.
    + intros H0. by rewrite Hprinted, H0.
    + intros Hpos. exists (<["TAR"%string := tar]> (<["DAR"%string := dar]> ∅)),
        dar, tar.
      split.
      { rewrite Hprinted. destruct (Nat.eqb_spec (size2 alpha) 0); [lia|done]. }
      split.
      { rewrite !dom_insert_L, dom_empty_L, union_empty_r_L.
        apply comm_L, _. }
      split; [by rewrite lookup_insert_ne, lookup_insert_eq|].
      split; [by rewrite lookup_insert_eq|]. done.
  - intros key v H1 H2 H3.
    unfold compute_ratios, ratio_arrays, getitem.
    by rewrite !lookup_insert_ne by done.
Qed.

(** ** The results table *)

Section ResultsTable.

Lemma concat_uniform_length {A : Type} (ll : list (list A)) (k : nat) :
  Forall (fun l => length l = k) ll →
  length (concat ll) = (length ll * k)%nat.
Proof.
  induction 1 as [|l ll Hl _ IH]; [reflexivity|].
  simpl. rewrite length_app, Hl, IH. reflexivity.
Qed.

Lemma concat_uniform_lookup {A : Type} (ll : list (list A)) (k i j : nat)
  (l : list A) :
  Forall (fun l => length l = k) ll →
  ll !! i = Some l → (j < k)%nat →
  concat ll !! (i * k + j)%nat = l !! j.
Proof.
  intros Hall. revert i. induction Hall as [|l0 ll Hl0 _ IH]; intros i Hi Hj.
  - by rewrite lookup_nil in Hi.
  - destruct i as [|i]; simpl in Hi |- *.
    + injection Hi as ->. apply lookup_app_l. lia.
    + rewrite lookup_app_r by lia.
      replace (k + i * k + j - length l0)%nat with (i * k + j)%nat by lia.
      by apply IH.
Qed.

Lemma getcell_complete {A : Type} (d : gmap string (list (list A)))
  (key : string) (n_e n_c e c : nat) :
  complete d key n_e n_c → (e < n_e)%nat → (c < n_c)%nat →
  ∃ x, getcell d key e c = Ok x.
Proof.
  intros (m & Hm & Hcells) He Hc. destruct (Hcells e c He Hc) as [x Hx].
  exists x. unfold getcell, getitem. rewrite Hm. simpl. by rewrite Hx.
Qed.

(** A row that is returned holds the indices, the name and the seven
    cells. *)
Lemma result_row_inv bp ratios (e c : nat) (name : string) (row : ResultRow) :
  result_row bp ratios e c name = Ok row →
  row_epoch row = e ∧ row_channel row = name ∧
  getcell bp "delta" e c = Ok (delta_power row) ∧
  getcell bp "theta" e c = Ok (theta_power row) ∧
  getcell bp "alpha" e c = Ok (alpha_power row) ∧
  getcell bp "beta" e c = Ok (beta_power row) ∧
  getcell bp "gamma" e c = Ok (gamma_power row) ∧
  getcell ratios "DAR" e c = Ok (DAR row) ∧
  getcell ratios "TAR" e c = Ok (TAR row).
Proof.
  unfold result_row.
  destruct (getcell bp "delta" e c) as [d|]; [|discriminate].
  destruct (getcell bp "theta" e c) as [t|]; [|discriminate].
  destruct (getcell bp "alpha" e c) as [a|]; [|discriminate].
  destruct (getcell bp "beta" e c) as [b|]; [|discriminate].
  destruct (getcell bp "gamma" e c) as [g|]; [|discriminate].
  destruct (getcell ratios "DAR" e c) as [dar|]; [|discriminate].
  destruct (getcell ratios "TAR" e c) as [tar|]; [|discriminate].
  rewrite !bind_Ok. intros [= <-]. simpl. repeat split.
Qed.

Lemma result_row_ok bp ratios (n_e n_c e c : nat) (name : string) :
  (∀ key, key ∈ ["delta"; "theta"; "alpha"; "beta"; "gamma"]%string →
          complete bp key n_e n_c) →
  (∀ key, key ∈ ["DAR"; "TAR"]%string → complete ratios key n_e n_c) →
  (e < n_e)%nat → (c < n_c)%nat →
  is_ok (result_row bp ratios e c name) = true.
Proof.
  intros Hbp Hr He Hc. unfold result_row.
  destruct (getcell_complete bp "delta" n_e n_c e c) as [d ->];
    [apply Hbp; repeat constructor|done|done|].
  destruct (getcell_complete bp "theta" n_e n_c e c) as [t ->];
    [apply Hbp; repeat constructor|done|done|].
  destruct (getcell_complete bp "alpha" n_e n_c e c) as [a ->];
    [apply Hbp; repeat constructor|done|done|].
  destruct (getcell_complete bp "beta" n_e n_c e c) as [b ->];
    [apply Hbp; repeat constructor|done|done|].
  destruct (getcell_complete bp "gamma" n_e n_c e c) as [g ->];
    [apply Hbp; repeat constructor|done|done|].
  destruct (getcell_complete ratios "DAR" n_e n_c e c) as [dar ->];
    [apply Hr; repeat constructor|done|done|].
  destruct (getcell_complete ratios "TAR" n_e n_c e c) as [tar ->];
    [apply Hr; repeat constructor|done|done|].
  reflexivity.
Qed.

(** The table of complete dictionaries: one row per epoch and channel, in
    the order of the loops. *)
Lemma create_results_dataframe_rows (epochs : Epochs) bp ratios :
  (∀ key, key ∈ ["delta"; "theta"; "alpha"; "beta"; "gamma"]%string →
          complete bp key (len epochs) (length (e_ch_names epochs))) →
  (∀ key, key ∈ ["DAR"; "TAR"]%string →
          complete ratios key (len epochs) (length (e_ch_names epochs))) →
  ∃ rows,
    create_results_dataframe epochs bp ratios = Ok rows ∧
    length rows = (len epochs * length (e_ch_names epochs))%nat ∧
    ∀ e c name,
      (e < len epochs)%nat → e_ch_names epochs !! c = Some name →
      ∃ row,
        rows !! (e * length (e_ch_names epochs) + c)%nat = Some row ∧
        result_row bp ratios e c name = Ok row.
Proof.
  intros Hbp Hr. unfold create_results_dataframe.
  set (names := e_ch_names epochs) in *. set (n_c := length names) in *.
  set (inner := fun epoch_idx : nat =>
         map_result (fun p : nat * string =>
                       result_row bp ratios epoch_idx p.1 p.2)
           (zip (seq 0 n_c) names)).
  assert (Hinner : ∀ e, (e < len epochs)%nat → is_ok (inner e) = true).
  { intros e He. unfold inner.
    destruct (map_result_ok
                (fun p : nat * string => result_row bp ratios e p.1 p.2)
                (zip (seq 0 n_c) names)) as [rows_e ->]; [|done].
    apply Forall_forall. intros [c name] Hp. simpl.
    apply elem_of_zip_l, elem_of_seq in Hp.
    apply (result_row_ok bp ratios (len epochs) n_c); [done|done|done|lia]. }
  destruct (map_result_ok inner (seq 0 (len epochs))) as [results Hres].
  { apply Forall_forall. intros e He. apply elem_of_seq in He.
    apply Hinner. lia. }
  fold inner. rewrite Hres, bind_Ok.
  apply map_result_Forall2 in Hres.
  assert (Hlens : Forall (fun l => length l = n_c) results).
  { apply Forall_forall. intros rows_e Hin.
    apply list_elem_of_lookup in Hin as [i Hi].
    destruct (Forall2_lookup_r _ _ _ _ _ Hres Hi) as (e & _ & He).
    unfold inner in He. apply map_result_Forall2, Forall2_length in He.
    rewrite <- He, length_zip, length_seq. unfold n_c. lia. }
  exists (concat results). split; [reflexivity|]. split.
  - rewrite (concat_uniform_length _ _ Hlens).
    by rewrite <- (Forall2_length _ _ _ Hres), length_seq.
  - intros e c name He Hc.
    destruct (Forall2_lookup_l _ _ _ e e Hres (lookup_seq_lt 0 _ e He))
      as (rows_e & Hre & Hie).
    unfold inner in Hie. apply map_result_Forall2 in Hie.
    assert (Hz : zip (seq 0 n_c) names !! c = Some (c, name)).
    { apply lookup_zip_with_Some. exists c, name. split; [done|].
      split; [|exact Hc]. apply lookup_seq_lt.
      by apply lookup_lt_Some in Hc. }
    destruct (Forall2_lookup_l _ _ _ c _ Hie Hz) as (row & Hrow & Hok).
    exists row. split; [|exact Hok].
    rewrite (concat_uniform_lookup results n_c e c rows_e Hlens Hre);
      [exact Hrow|]. by apply lookup_lt_Some in Hc.
Qed.

Lemma map_result_empty_rows {A C : Type} (f : A → result (list C))
  (l : list A) :
  (∀ x, f x = Ok []) → ∃ rs, map_result f l = Ok rs ∧ concat rs = [].
Proof.
  intros Hf. induction l as [|x l (rs & Hrs & Hc)]; [by exists []|].
  exists ([] :: rs). simpl. by rewrite Hf, bind_Ok, Hrs.
Qed.

End ResultsTable.

(** X5 (results table): when the two dictionaries hold the five bands and
    the two ratios with a cell for every epoch and channel,
    [create_results_dataframe] returns [len(epochs) * n_channels] rows; the
    row of epoch [e] and channel [c] is at position
    [e * n_channels + c] and holds [e], the channel's name and the seven
    cells read at [(e, c)]. *)
Theorem results_table_rows
  (epochs : Epochs) (bp : gmap string matrix)
  (ratios : gmap string (list (list (option Q)))) :
  (∀ key, key ∈ ["delta"; "theta"; "alpha"; "beta"; "gamma"]%string →
          complete bp key (len epochs) (length (e_ch_names epochs))) →
  (∀ key, key ∈ ["DAR"; "TAR"]%string →
          complete ratios key (len epochs) (length (e_ch_names epochs))) →
  ∃ rows,
    create_results_dataframe epochs bp ratios = Ok rows ∧
    length rows = (len epochs * length (e_ch_names epochs))%nat ∧
    ∀ e c name,
      (e < len epochs)%nat → e_ch_names epochs !! c = Some name →
      ∃ row,
        rows !! (e * length (e_ch_names epochs) + c)%nat = Some row ∧
        row_epoch row = e ∧ row_channel row = name ∧
        getcell bp "delta" e c = Ok (delta_power row) ∧
        getcell bp "theta" e c = Ok (theta_power row) ∧
        getcell bp "alpha" e c = Ok (alpha_power row) ∧
        getcell bp "beta" e c = Ok (beta_power row) ∧
        getcell bp "gamma" e c = Ok (gamma_power row) ∧
        getcell ratios "DAR" e c = Ok (DAR row) ∧
        getcell ratios "TAR" e c = Ok (TAR row).
Proof.
  intros Hbp Hr.
  destruct (create_results_dataframe_rows epochs bp ratios Hbp Hr)
    as (rows & Hdf & Hlen & Hrows).
  exists rows. split; [exact Hdf|]. split; [exact Hlen|].
  intros e c name He Hc. destruct (Hrows e c name He Hc) as (row & Hrow & Hok).
  exists row. split; [exact Hrow|]. by apply result_row_inv.
Qed.

Lemma results_table_rows_witness :
  ∃ rows,
    create_results_dataframe example_epochs example_table example_ratios
    = Ok rows ∧
    length rows = 2%nat.
Proof.
  destruct (results_table_rows example_epochs example_table example_ratios)
    as (rows & Hrun & Hlen & _).
  - intros key Hk.
    repeat (apply elem_of_cons in Hk as [->|Hk]);
      [..|by apply elem_of_nil in Hk];
      (eexists; split; [by vm_compute|]; intros [|e] [|[|c]] He Hc;
       unfold len in He; simpl in He, Hc; try lia; eexists; reflexivity).
  - intros key Hk.
    repeat (apply elem_of_cons in Hk as [->|Hk]);
      [..|by apply elem_of_nil in Hk];
      (eexists; split; [by vm_compute|]; intros [|e] [|[|c]] He Hc;
       unfold len in He; simpl in He, Hc; try lia; eexists; reflexivity).
  - exists rows. split; [exact Hrun|exact Hlen].
Defined.

(** X6 (results table, edges): without epochs or without channels the
    table is empty whatever the dictionaries hold, a missing key
    included; with an epoch and a channel a missing delta array raises
    [KeyError] and a delta array without the cell [(0, 0)] raises
    [IndexError]. *)
Theorem results_table_edges
  (epochs : Epochs) (bp : gmap string matrix)
  (ratios : gmap string (list (list (option Q)))) :
  ((len epochs = 0%nat ∨ e_ch_names epochs = []) →
   create_results_dataframe epochs bp ratios = Ok []) ∧
  ((0 < len epochs)%nat → e_ch_names epochs ≠ [] →
   (bp !! "delta"%string = None →
    create_results_dataframe epochs bp ratios = Raise KeyError) ∧
   (∀ m, bp !! "delta"%string = Some m → cell m 0 0 = None →
      create_results_dataframe epochs bp ratios = Raise IndexError)).
Proof.
  split.
  - intros [H0|H0]; unfold create_results_dataframe; rewrite H0.
    + reflexivity.
    + simpl. destruct (map_result_empty_rows
                         (fun _ : nat => Ok ([] : list ResultRow))
                         (seq 0 (len epochs))) as (rs & -> & Hc); [done|].
      by rewrite bind_Ok, Hc.
  - intros He Hn. unfold create_results_dataframe.
    destruct (len epochs) as [|n]; [lia|].
    destruct (e_ch_names epochs) as [|name names]; [done|].
    split.
    + intros Hd. simpl. unfold result_row, getcell, getitem. by rewrite Hd.
    + intros m Hd Hm. simpl. unfold result_row, getcell, getitem.
      rewrite Hd. simpl. by rewrite Hm.
Qed.

(** ** From the spectrum to the table *)

Section AnalysisChain.








End AnalysisChain.



(** ** The preprocessing report *)

Section ReportFacts.

Lemma bool_sum_le_length (l : list bool) : (bool_sum l ≤ length l)%nat.
Proof. unfold bool_sum. apply length_filter. Qed.

Lemma inject_nat_pos (n : nat) : (0 < n)%nat → 0 < inject_Z (Z.of_nat n).
Proof.
  intros Hn. change 0 with (inject_Z 0). rewrite <- Zlt_Qlt. lia.
Qed.

Lemma inject_nat_le (m n : nat) :
  (m ≤ n)%nat → inject_Z (Z.of_nat m) <= inject_Z (Z.of_nat n).
Proof. intros Hmn. rewrite <- Zle_Qle. lia. Qed.

End ReportFacts.

(** X8 (report): the rejection rate of the report is [nan] exactly for a
    log without epochs; otherwise it is a percentage between 0 and 100,
    [100 * rejected / len(bad_epochs)].  The duration reported is not
    negative when [tmin <= tmax]. *)
Theorem report_rejection_rate (epochs_clean : Epochs) (reject_log : RejectLog) :
  (bad_epochs reject_log = [] ↔
   rejection_rate (get_preprocessing_report epochs_clean reject_log) = None) ∧
  (∀ rate,
     rejection_rate (get_preprocessing_report epochs_clean reject_log)
     = Some rate →
     0 <= rate ∧ rate <= 100 ∧
     rate * inject_Z (Z.of_nat (length (bad_epochs reject_log)))
     == 100 * inject_Z (Z.of_nat
                 (n_epochs_rejected
                    (get_preprocessing_report epochs_clean reject_log)))) ∧
  (e_tmin epochs_clean <= e_tmax epochs_clean →
   0 <= duration (get_preprocessing_report epochs_clean reject_log)).
Proof.
  unfold get_preprocessing_report. simpl.
  set (s := bool_sum (bad_epochs reject_log)).
  set (n := length (bad_epochs reject_log)).
  assert (Hsn : (s ≤ n)%nat) by apply bool_sum_le_length.
  split; [|split].
  - split.
    + intros Hnil. unfold n. rewrite Hnil.
      by rewrite np_div_zero by reflexivity.
    + intros Hnone. destruct (bad_epochs reject_log) as [|b l] eqn:Hl; [done|].
      exfalso.
      pose proof (inject_nat_pos n ltac:(unfold n; simpl; lia)) as Hpos.
      assert (Hs0 : 0 <= inject_Z (Z.of_nat s))
        by (change 0 with (inject_Z 0); rewrite <- Zle_Qle; lia).
      destruct (np_div_nonneg _ _ Hs0 Hpos) as [Hfin _].
      rewrite Hfin in Hnone; [discriminate|].
      pose proof (inject_nat_le s n Hsn) as Hle.
      pose proof float64_overflow_gt_1 as Hov.
      assert (Hq1 : inject_Z (Z.of_nat s) / inject_Z (Z.of_nat n) <= 1)
        by (apply Qle_shift_div_r; lra).
      lra.
  - intros rate Hrate.
    destruct (decide (n = 0%nat)) as [Hn0|Hn0].
    { rewrite Hn0 in Hrate. by rewrite np_div_zero in Hrate by reflexivity. }
    pose proof (inject_nat_pos n ltac:(lia)) as Hpos.
    pose proof (inject_nat_le s n Hsn) as Hle.
    assert (Hs0 : 0 <= inject_Z (Z.of_nat s))
      by (change 0 with (inject_Z 0); rewrite <- Zle_Qle; lia).
    set (qs := inject_Z (Z.of_nat s)) in *.
    set (qn := inject_Z (Z.of_nat n)) in *.
    assert (Hq0 : 0 <= qs / qn) by (apply Qle_shift_div_l; lra).
    assert (Hq1 : qs / qn <= 1) by (apply Qle_shift_div_r; lra).
    destruct (np_div_nonneg qs qn Hs0 Hpos) as [Hfin _].
    rewrite Hfin in Hrate by (pose proof float64_overflow_gt_1; lra).
    simpl in Hrate. injection Hrate as <-.
    split; [lra|]. split; [lra|]. field. lra.
  - intros Ht. apply Qmult_le_0_compat; [|lra].
    change 0 with (inject_Z 0). rewrite <- Zle_Qle. lia.
Qed.

(** ** The standard sampling rate *)

Section OrderFacts.




End OrderFacts.

Section StandardRate.




End StandardRate.


(** ** The windows of the epochs *)

Section EpochWindows.

Context (B : Backend).

Lemma slice_lookup (s m i : nat) (c : list Q) :
  (i < m)%nat → slice s m c !! i = c !! (s + i)%nat.
Proof.
  intros Hi. unfold slice. by rewrite lookup_take_lt, lookup_drop.
Qed.

Lemma slice_length (s m : nat) (c : list Q) :
  (s + m ≤ length c)%nat → length (slice s m c) = m.
Proof.
  intros Hc. unfold slice. rewrite length_take, length_drop. lia.
Qed.

Lemma epoch_window_lookup (raw : Raw) (sf : Q) (n m k c : nat)
  (data : list (list (list Q))) (ep : list (list Q)) (w : list Q) :
  data = map (fun k =>
                map (fun ch => rescale B None sf (slice (k * n) (n + 1) ch))
                  (samples raw))
           (seq 0 m) →
  data !! k = Some ep → ep !! c = Some w →
  (k < m)%nat ∧
  ∃ chan, samples raw !! c = Some chan ∧ w = slice (k * n) (n + 1) chan.
Proof.
  intros -> Hep Hw.
  rewrite list_lookup_fmap in Hep.
  destruct (seq 0 m !! k) as [k'|] eqn:Hk; [|discriminate].
  apply lookup_seq in Hk as [-> Hk]. simpl in Hep. injection Hep as <-.
  split; [exact Hk|].
  rewrite list_lookup_fmap in Hw.
  destruct (samples raw !! c) as [chan|]; [|discriminate].
  simpl in Hw. injection Hw as <-. exists chan.
  by rewrite rescale_None.
Qed.

Lemma epochs_fit (N n : Z) :
  (0 < n)%Z → (n ≤ N)%Z →
  (Z.to_nat ((N - 1) / n) * Z.to_nat n + 1 ≤ Z.to_nat N)%nat.
Proof.
  intros Hn HN.
  pose proof (Z.mul_div_le (N - 1) n Hn) as Hle.
  assert (Hq : (0 ≤ (N - 1) / n)%Z) by (apply Z.div_pos; lia).
  apply Nat2Z.inj_le.
  rewrite Nat2Z.inj_add, Nat2Z.inj_mul, !Z2Nat.id by lia. lia.
Qed.

End EpochWindows.

(** X11 (windows of the epochs): for a recording of [N] samples per channel
    and an epoch length of [n = sfreq * epoch_duration] whole samples, the
    segmenter of [preprocess_raw] without baseline correction raises
    [ValueError] when [N < n]; otherwise it returns [(N - 1) div n] epochs
    that fit into the recording with one sample to spare, sample [i] of
    channel [c] of epoch [k] is sample [k * n + i] of that channel for
    [i = 0 .. n], and the last sample of an epoch is the first sample of
    the next one. *)
Theorem segmenter_windows_share_a_sample
  (B : Backend) (raw : Raw) (d : Q) (n : Z) :
  Forall (fun c => length c = n_times raw) (samples raw) →
  0 < d → (0 < n)%Z → sfreq raw * d == inject_Z n →
  ((Z.of_nat (n_times raw) < n)%Z →
   create_epochs B raw d None = Raise ValueError) ∧
  ((n ≤ Z.of_nat (n_times raw))%Z →
   ∃ epochs,
     create_epochs B raw d None = Ok epochs ∧
     len epochs = Z.to_nat ((Z.of_nat (n_times raw) - 1) / n) ∧
     (len epochs * Z.to_nat n + 1 ≤ n_times raw)%nat ∧
     (∀ k ep c w,
        e_data epochs !! k = Some ep → ep !! c = Some w →
        ∃ chan,
          samples raw !! c = Some chan ∧
          length w = (Z.to_nat n + 1)%nat ∧
          ∀ i, (i ≤ Z.to_nat n)%nat →
               w !! i = chan !! (k * Z.to_nat n + i)%nat) ∧
     (∀ k ep ep' c w w',
        e_data epochs !! k = Some ep → e_data epochs !! S k = Some ep' →
        ep !! c = Some w → ep' !! c = Some w' →
        w !! Z.to_nat n = w' !! 0%nat ∧ is_Some (w' !! 0%nat))).
Proof.
  intros Hwf Hd Hn Hstep.
  destruct (create_epochs_integral B raw d None n Hwf Hd Hn Hstep)
    as [Hshort Hlong].
  split; [exact Hshort|]. intros HN.
  destruct (Hlong HN) as (epochs & Hrun & Hlen & _ & Hdata & Hshape).
  exists epochs. split; [exact Hrun|]. split; [exact Hlen|].
  assert (Hwin : ∀ k ep c w,
    e_data epochs !! k = Some ep → ep !! c = Some w →
    ∃ chan,
      samples raw !! c = Some chan ∧
      length w = (Z.to_nat n + 1)%nat ∧
      ∀ i, (i ≤ Z.to_nat n)%nat →
           w !! i = chan !! (k * Z.to_nat n + i)%nat).
  { intros k ep c w Hep Hw.
    destruct (epoch_window_lookup B raw _ _ _ _ _ _ _ _ Hdata Hep Hw)
      as (_ & chan & Hchan & Hslice).
    exists chan. split; [exact Hchan|]. split.
    - eapply Forall_lookup_1 in Hshape as [_ Hws]; [|exact Hep].
      eapply Forall_lookup_1 in Hws; [exact Hws|exact Hw].
    - intros i Hi. rewrite Hslice. apply slice_lookup. lia. }
  split; [|split; [exact Hwin|]].
  - rewrite Hlen. pose proof (epochs_fit (Z.of_nat (n_times raw)) n Hn HN).
    by rewrite Nat2Z.id in *.
  - intros k ep ep' c w w' Hep Hep' Hw Hw'.
    destruct (Hwin _ _ _ _ Hep Hw) as (chan & Hchan & _ & Hi).
    destruct (Hwin _ _ _ _ Hep' Hw') as (chan' & Hchan' & Hlw' & Hi').
    rewrite Hchan in Hchan'. injection Hchan' as <-.
    split.
    + rewrite Hi, Hi' by lia. f_equal. lia.
    + apply lookup_lt_is_Some. lia.
Qed.

Lemma segmenter_windows_share_a_sample_witness :
  ∃ epochs,
    create_epochs reference_backend (spike_recording 1537) 2 None = Ok epochs ∧
    len epochs = 3%nat ∧
    ∀ k ep ep' c w w',
      e_data epochs !! k = Some ep → e_data epochs !! S k = Some ep' →
      ep !! c = Some w → ep' !! c = Some w' →
      w !! 512%nat = w' !! 0%nat ∧ is_Some (w' !! 0%nat).
Proof.
  destruct (segmenter_windows_share_a_sample reference_backend
              (spike_recording 1537) 2 512) as [_ Hlong].
  - repeat constructor.
  - reflexivity.
  - lia.
  - reflexivity.
  - destruct Hlong as (epochs & Hrun & Hlen & _ & _ & Hshare);
      [vm_compute; discriminate|].
    exists epochs. split; [exact Hrun|]. split; [exact Hlen|]. exact Hshare.
Defined.

(** ** From the recording to the clean epochs *)

Section EpochBudget.

Context (B : Backend).

Lemma n_times_map_length (raw raw1 : Raw) :
  map length (samples raw1) = map length (samples raw) →
  n_times raw1 = n_times raw ∧
  (Forall (fun c => length c = n_times raw) (samples raw) →
   Forall (fun c => length c = n_times raw1) (samples raw1)).
Proof.
  intros Hl.
  assert (Hn : n_times raw1 = n_times raw).
  { unfold n_times. destruct (samples raw1), (samples raw); try done.
    simpl in Hl. congruence. }
  split; [exact Hn|]. rewrite Hn. intros Hwf.
  assert (H1 : Forall (fun k => k = n_times raw) (map length (samples raw)))
    by (apply (Forall_fmap length (fun k => k = n_times raw)); exact Hwf).
  rewrite <- Hl in H1.
  apply (Forall_fmap length (fun k => k = n_times raw)) in H1. exact H1.
Qed.

Lemma condition_shape (r : nat) (apply_ica : bool) (σ : store) (raw : Raw)
  (r1 : nat) (σ1 : store) :
  σ !! r = Some raw → condition B r apply_ica σ = Ok (r1, σ1) →
  ∃ raw1,
    σ1 !! r1 = Some raw1 ∧ sfreq raw1 = sfreq raw ∧
    map length (samples raw1) = map length (samples raw).
Proof.
  intros Hr Hcond. unfold condition in Hcond.
  destruct (raw_copy r σ) as [[r0 σ0]|] eqn:Hcopy; [|discriminate].
  rewrite bind_Ok in Hcond.
  destruct (raw_copy_inv r σ raw r0 σ0 Hr Hcopy) as (_ & _ & ->).
  destruct (raw_filter B r0 (5 # 10) 40 (<[r0 := raw]> σ)) as [σ2|] eqn:Hfil;
    [|discriminate].
  rewrite bind_Ok in Hcond.
  destruct (raw_filter_inv B r0 _ _ _ σ2 raw (lookup_insert_eq _ _ _) Hfil)
    as (chans & _ & Hlens & ->).
  destruct apply_ica.
  - unfold deref in Hcond. rewrite lookup_insert_eq, bind_Ok in Hcond.
    destruct (ica_fit_apply B _ _ _) as [raw'|] eqn:Hica; [|discriminate].
    rewrite bind_Ok in Hcond. injection Hcond as <- <-.
    destruct (ica_shape B _ _ _ _ Hica) as (_ & Hs & Hl). simpl in Hs, Hl.
    exists raw'. rewrite lookup_insert_eq. split; [reflexivity|].
    split; [exact Hs|]. by rewrite Hl.
  - injection Hcond as <- <-. eexists. rewrite lookup_insert_eq.
    split; [reflexivity|]. split; [reflexivity|exact Hlens].
Qed.

Lemma simplified_rejection_len (epochs clean : Epochs) (log : RejectLog) :
  simplified_rejection B epochs = Ok (clean, log) → (len clean ≤ len epochs)%nat.
Proof.
  unfold simplified_rejection.
  destruct (get_rejection_threshold B epochs) as [t|]; [|discriminate].
  rewrite bind_Ok.
  destruct (drop_bad t epochs) as [e'|] eqn:Hdrop; [|discriminate].
  rewrite bind_Ok. intros [= <- _].
  by destruct (drop_bad_inv _ _ _ Hdrop) as (_ & _ & _ & _ & Hle).
Qed.

Lemma reject_epochs_len (epochs clean : Epochs) (log : RejectLog) :
  reject_epochs B epochs = Ok (clean, log) → (len clean ≤ len epochs)%nat.
Proof.
  unfold reject_epochs.
  destruct (primary_rejection B epochs) as [[e1 log1]|] eqn:Hprim;
    [|discriminate].
  rewrite bind_Ok.
  assert (H1 : (len e1 ≤ len epochs)%nat).
  { unfold primary_rejection in Hprim.
    destruct (len epochs <? 10)%nat.
    - by eapply simplified_rejection_len.
    - by eapply fit_transform_len. }
  destruct (additional_rejection B (len epochs) e1) as [e2|] eqn:Hadd;
    [|discriminate].
  rewrite bind_Ok. intros [= <- _].
  unfold additional_rejection in Hadd.
  destruct (10 <=? len epochs)%nat.
  - destruct (get_rejection_threshold B e1) as [t|]; [|discriminate].
    rewrite bind_Ok in Hadd.
    destruct (drop_bad_inv _ _ _ Hadd) as (_ & _ & _ & _ & Hle). lia.
  - by injection Hadd as <-.
Qed.

End EpochBudget.

(** X12 (epoch budget): for a recording of [N] samples per channel and an
    epoch length of [n = sfreq * epoch_duration] whole samples,
    [preprocess_raw] does not return when [N < n]; whenever it returns,
    with or without ICA and whatever the rejection does, [n <= N] and the
    clean epochs are at most [(N - 1) div n]: their [n]-sample spans fit
    into the recording with one sample to spare. *)
Theorem preprocess_raw_epoch_budget
  (B : Backend) (r : nat) (σ : store) (raw : Raw) (d : Q)
  (b : option (Q * Q)) (apply_ica : bool) (n : Z) :
  σ !! r = Some raw →
  Forall (fun c => length c = n_times raw) (samples raw) →
  0 < d → (0 < n)%Z → sfreq raw * d == inject_Z n →
  ((Z.of_nat (n_times raw) < n)%Z →
   is_ok (preprocess_raw B r d b apply_ica σ) = false) ∧
  (∀ clean log σ',
     preprocess_raw B r d b apply_ica σ = Ok ((clean, log), σ') →
     (n ≤ Z.of_nat (n_times raw))%Z ∧
     (len clean ≤ Z.to_nat ((Z.of_nat (n_times raw) - 1) / n))%nat ∧
     (len clean * Z.to_nat n + 1 ≤ n_times raw)%nat).
Proof.
  intros Hr Hwf Hd Hn Hstep.
  assert (Hinv : ∀ res σ',
    preprocess_raw B r d b apply_ica σ = Ok (res, σ') →
    ∃ raw1 epochs,
      n_times raw1 = n_times raw ∧
      Forall (fun c => length c = n_times raw1) (samples raw1) ∧
      sfreq raw1 = sfreq raw ∧
      create_epochs B raw1 d b = Ok epochs ∧
      reject_epochs B epochs = Ok res).
  { intros res σ' Hpre. unfold preprocess_raw in Hpre.
    destruct (condition B r apply_ica σ) as [[r1 σ1]|] eqn:Hcond;
      [|discriminate].
    rewrite bind_Ok in Hpre.
    destruct (condition_shape B _ _ _ _ _ _ Hr Hcond)
      as (raw1 & Hr1 & Hsf & Hl).
    unfold deref in Hpre. rewrite Hr1, bind_Ok in Hpre.
    destruct (create_epochs B raw1 d b) as [epochs|] eqn:Hce; [|discriminate].
    rewrite bind_Ok in Hpre.
    destruct (reject_epochs B epochs) as [res'|] eqn:Hrej; [|discriminate].
    rewrite bind_Ok in Hpre. injection Hpre as <- _.
    destruct (n_times_map_length raw raw1 Hl) as [Hnt Hwf1].
    exists raw1, epochs. auto. }
  assert (Hcount : ∀ clean log σ',
    preprocess_raw B r d b apply_ica σ = Ok ((clean, log), σ') →
    (n ≤ Z.of_nat (n_times raw))%Z ∧
    (len clean ≤ Z.to_nat ((Z.of_nat (n_times raw) - 1) / n))%nat).
  { intros clean log σ' Hpre.
    destruct (Hinv _ _ Hpre) as (raw1 & epochs & Hnt & Hwf1 & Hsf & Hce & Hrej).
    assert (Hstep1 : sfreq raw1 * d == inject_Z n) by (by rewrite Hsf).
    destruct (create_epochs_integral B raw1 d b n Hwf1 Hd Hn Hstep1)
      as [Hshort Hlong].
    rewrite Hnt in Hshort, Hlong.
    destruct (Z.lt_ge_cases (Z.of_nat (n_times raw)) n) as [Hlt|Hge].
    { rewrite (Hshort Hlt) in Hce. discriminate. }
    split; [exact Hge|].
    destruct (Hlong Hge) as (epochs' & Hce' & Hlen & _).
    rewrite Hce in Hce'. injection Hce' as <-.
    rewrite <- Hlen. by eapply reject_epochs_len. }
  split.
  - intros Hlt.
    destruct (preprocess_raw B r d b apply_ica σ) as [[[clean log] σ']|] eqn:Hpre;
      [|reflexivity].
    destruct (Hcount _ _ _ eq_refl) as [Hge _]. lia.
  - intros clean log σ' Hpre.
    destruct (Hcount _ _ _ Hpre) as [Hge Hle].
    split; [exact Hge|]. split; [exact Hle|].
    pose proof (epochs_fit (Z.of_nat (n_times raw)) n Hn Hge) as Hfit.
    rewrite Nat2Z.id in Hfit. nia.
Qed.

Lemma preprocess_raw_epoch_budget_witness :
  ((Z.of_nat (n_times (spike_recording 3073)) < 512)%Z →
   is_ok (preprocess_raw reference_backend 0 2 None false
            {[0%nat := spike_recording 3073]}) = false) ∧
  (∀ clean log σ',
     preprocess_raw reference_backend 0 2 None false
       {[0%nat := spike_recording 3073]} = Ok ((clean, log), σ') →
     (512 ≤ Z.of_nat (n_times (spike_recording 3073)))%Z ∧
     (len clean
      ≤ Z.to_nat ((Z.of_nat (n_times (spike_recording 3073)) - 1) / 512))%nat ∧
     (len clean * Z.to_nat 512 + 1 ≤ n_times (spike_recording 3073))%nat).
Proof.
  apply (preprocess_raw_epoch_budget reference_backend 0
           {[0%nat := spike_recording 3073]} (spike_recording 3073) 2 None
           false 512).
  - reflexivity.
  - repeat constructor.
  - reflexivity.
  - lia.
  - reflexivity.
Defined.

(** ** The Welch window and the epochs *)

Section WelchWindow.

Context (B : Backend).

Lemma py_int_nonneg (x : Q) : 0 <= x → py_int x = Qfloor x.
Proof.
  intros Hx. unfold py_int. apply Qle_bool_iff in Hx. by rewrite Hx.
Qed.

Lemma floor_double (sf : Q) :
  1 # 2 <= sf → (0 ≤ Qfloor (1 * sf) < Qfloor (2 * sf))%Z.
Proof.
  intros Hsf.
  pose proof (Qfloor_le (1 * sf)) as Ha1.
  pose proof (Qfloor_le (2 * sf)) as Hb1.
  pose proof (Qlt_floor (2 * sf)) as Hb2.
  assert (Ha0 : (0 ≤ Qfloor (1 * sf))%Z).
  { change 0%Z with (Qfloor 0). apply Qfloor_resp_le. lra. }
  assert (Hb0 : (1 ≤ Qfloor (2 * sf))%Z).
  { change 1%Z with (Qfloor 1). apply Qfloor_resp_le. lra. }
  split; [exact Ha0|].
  destruct (Z.lt_ge_cases (Qfloor (1 * sf)) (Qfloor (2 * sf))) as [Hlt|Hge];
    [exact Hlt|exfalso].
  rewrite inject_Z_plus in Hb2. change (inject_Z 1) with 1 in Hb2.
  assert (Hq : inject_Z (Qfloor (2 * sf)) <= inject_Z (Qfloor (1 * sf)))
    by (by rewrite <- Zle_Qle).
  assert (Hlt1 : inject_Z (Qfloor (1 * sf)) < inject_Z 1).
  { change (inject_Z 1) with 1. lra. }
  rewrite <- Zlt_Qlt in Hlt1. lia.
Qed.

Lemma create_epochs_sfreq (raw : Raw) (d : Q) (b : option (Q * Q))
  (epochs : Epochs) :
  create_epochs B raw d b = Ok epochs → e_sfreq epochs = sfreq raw.
Proof.
  unfold create_epochs.
  destruct (make_fixed_length_events raw d 0); [|discriminate].
  rewrite bind_Ok. by intros [= <-].
Qed.

(** Every epoch returned by the segmenter holds [epoch_n_times] samples of
    every channel. *)
Lemma create_epochs_n_times (raw : Raw) (d : Q) (b : option (Q * Q))
  (epochs : Epochs) :
  Forall (fun c => length c = n_times raw) (samples raw) →
  create_epochs B raw d b = Ok epochs →
  Forall (Forall (fun c =>
                    Z.of_nat (length c) = epoch_n_times (sfreq raw) 0 d))
    (e_data epochs).
Proof.
  intros Hwf Hce.
  destruct (create_epochs_inv B raw d b epochs Hce)
    as (L & m & Hm & HL & Hpos & _ & Hchar & _ & Hdata & _).
  rewrite Hdata. apply Forall_forall. intros ep Hep.
  apply list_elem_of_fmap in Hep as (k & -> & Hk).
  apply elem_of_seq in Hk.
  apply Forall_forall. intros w Hw.
  apply list_elem_of_fmap in Hw as (c & -> & Hc).
  rewrite rescale_length.
  eapply Forall_forall in Hwf; [|exact Hc].
  assert (Hfit := proj1 (Hchar k ltac:(lia)) ltac:(lia)).
  assert (Hev : (0 ≤ Qfloor (inject_Z (Z.of_nat k) * (sfreq raw * (d - 0))))%Z).
  { change 0%Z with (Qfloor 0). apply Qfloor_resp_le.
    apply Qmult_le_0_compat.
    - change 0 with (inject_Z 0). rewrite <- Zle_Qle. lia.
    - assert (Hs : sfreq raw * (d - 0) == sfreq raw * d) by ring.
      rewrite Hs. apply Qlt_le_weak. exact Hpos. }
  assert (Hnp : (0 ≤ epoch_n_times (sfreq raw) 0 d)%Z).
  { unfold epoch_n_times. rewrite round_half_even_0.
    pose proof (round_half_even_bounds (d * sfreq raw)) as Hb.
    assert (Hf : (0 ≤ Qfloor (d * sfreq raw))%Z).
    { change 0%Z with (Qfloor 0). apply Qfloor_resp_le.
      rewrite Qmult_comm. apply Qlt_le_weak. exact Hpos. }
    lia. }
  rewrite slice_length by lia. lia.
Qed.

End WelchWindow.

(** X13 (Welch window): on the epochs of 2 s that the pipeline cuts from a
    recording sampled at 0.5 Hz or more, the Welch parameters of the
    pipeline (window 2.0 s, overlap 1.0 s) satisfy
    [0 <= n_overlap < n_fft = n_per_seg], and the window is shorter than
    every epoch, which holds one sample more than [round(2 * sfreq)]. *)
Theorem welch_window_fits_epoch
  (B : Backend) (raw : Raw) (b : option (Q * Q)) (epochs : Epochs) :
  Forall (fun c => length c = n_times raw) (samples raw) →
  1 # 2 <= sfreq raw →
  create_epochs B raw 2 b = Ok epochs →
  (0 ≤ py_int (1 * e_sfreq epochs) < py_int (2 * e_sfreq epochs))%Z ∧
  Forall (Forall (fun c =>
                    (py_int (2 * e_sfreq epochs) < Z.of_nat (length c))%Z ∧
                    Z.of_nat (length c)
                    = (round_half_even (2 * e_sfreq epochs) + 1)%Z))
    (e_data epochs).
Proof.
  intros Hwf Hsf Hce.
  rewrite (create_epochs_sfreq B _ _ _ _ Hce).
  rewrite !py_int_nonneg by lra.
  split; [by apply floor_double|].
  pose proof (create_epochs_n_times B raw 2 b epochs Hwf Hce) as Hlen.
  unfold epoch_n_times in Hlen. rewrite round_half_even_0 in Hlen.
  pose proof (round_half_even_bounds (2 * sfreq raw)) as Hb.
  eapply Forall_impl; [exact Hlen|]. intros ep Hep.
  eapply Forall_impl; [exact Hep|]. intros c Hc. simpl in Hc. lia.
Qed.

Lemma welch_window_fits_epoch_witness :
  (0 ≤ py_int (1 * e_sfreq (epochs_of (spike_recording 1537)))
   < py_int (2 * e_sfreq (epochs_of (spike_recording 1537))))%Z ∧
  Forall (Forall (fun c =>
            (py_int (2 * e_sfreq (epochs_of (spike_recording 1537)))
             < Z.of_nat (length c))%Z ∧
            Z.of_nat (length c)
            = (round_half_even (2 * e_sfreq (epochs_of (spike_recording 1537)))
               + 1)%Z))
    (e_data (epochs_of (spike_recording 1537))).
Proof.
  apply (welch_window_fits_epoch reference_backend (spike_recording 1537) None).
  - repeat constructor.
  - discriminate.
  - by vm_compute.
Defined.

(** X14 (spectrum of the raw recording): for a recording of [N] samples per
    channel with [n = 2 * sfreq] whole samples, [compute_raw_psd] raises
    [ValueError] when [N < n]; otherwise it hands to the Welch estimator
    the [(N - 1) div n] epochs that the segmenter of [preprocess_raw] cuts
    from the same recording, with the window [min(n_fft, n + 1)], a segment
    of the same length and half the window as overlap; for a positive
    [n_fft] the overlap is shorter than the segment and the window is not
    longer than an epoch. *)
Theorem compute_raw_psd_window
  (B : Backend) (S : Spectral) (raw : Raw) (fmin fmax : Q) (n_fft n : Z) :
  Forall (fun c => length c = n_times raw) (samples raw) →
  (0 < n)%Z → sfreq raw * 2 == inject_Z n →
  ((Z.of_nat (n_times raw) < n)%Z →
   compute_raw_psd B S raw fmin fmax n_fft = Raise ValueError) ∧
  ((n ≤ Z.of_nat (n_times raw))%Z →
   ∃ epochs,
     create_epochs B raw 2 None = Ok epochs ∧
     len epochs = Z.to_nat ((Z.of_nat (n_times raw) - 1) / n) ∧
     compute_raw_psd B S raw fmin fmax n_fft
     = ('(psds, freqs) ← psd_welch S epochs fmin fmax
                           (Z.min n_fft (n + 1)) (Z.min n_fft (n + 1) / 2)
                           (Z.min n_fft (n + 1));
        Ok (scale_psds psds 1000000000000, freqs)) ∧
     ((0 < n_fft)%Z →
      (0 ≤ Z.min n_fft (n + 1) / 2 < Z.min n_fft (n + 1))%Z ∧
      (Z.min n_fft (n + 1) ≤ n + 1)%Z)).
Proof.
  intros Hwf Hn Hstep.
  destruct (create_epochs_integral B raw 2 None n Hwf ltac:(reflexivity) Hn Hstep)
    as [Hshort Hlong].
  split.
  - intros Hlt. specialize (Hshort Hlt).
    unfold create_epochs in Hshort. unfold compute_raw_psd.
    destruct (make_fixed_length_events raw 2 0) as [events|e];
      [discriminate|]. by injection Hshort as ->.
  - intros Hge. destruct (Hlong Hge) as (epochs & Hce & Hlen & _).
    exists epochs. split; [exact Hce|]. split; [exact Hlen|].
    split.
    + unfold create_epochs in Hce. unfold compute_raw_psd.
      destruct (make_fixed_length_events raw 2 0) as [events|e];
        [|discriminate].
      rewrite bind_Ok in Hce. injection Hce as <-. rewrite bind_Ok.
      assert (Hnp : epoch_n_times (sfreq raw) 0 2 = (n + 1)%Z).
      { unfold epoch_n_times. rewrite round_half_even_0.
        assert (Hc : 2 * sfreq raw == inject_Z n) by (by rewrite <- Hstep; ring).
        rewrite (round_half_even_comp _ _ Hc), round_half_even_Z. lia. }
      cbv zeta. rewrite Hnp. reflexivity.
    + intros Hfft. split; [|lia].
      assert (Hw : (0 < Z.min n_fft (n + 1))%Z) by lia.
      split; [apply Z.div_pos; lia|]. apply Z.div_lt; lia.
Qed.

Lemma compute_raw_psd_window_witness :
  ∃ epochs,
    create_epochs reference_backend (spike_recording 1537) 2 None = Ok epochs ∧
    len epochs = 3%nat ∧
    compute_raw_psd reference_backend reference_spectral
      (spike_recording 1537) (5 # 10) 40 512
    = ('(psds, freqs) ← psd_welch reference_spectral epochs (5 # 10) 40
                          512 256 512;
       Ok (scale_psds psds 1000000000000, freqs)).
Proof.
  destruct (compute_raw_psd_window reference_backend reference_spectral
              (spike_recording 1537) (5 # 10) 40 512 512) as [_ Hlong].
  - repeat constructor.
  - lia.
  - reflexivity.
  - destruct Hlong as (epochs & Hrun & Hlen & Hpsd & _);
      [vm_compute; discriminate|].
    exists epochs. split; [exact Hrun|]. split; [exact Hlen|]. exact Hpsd.
Defined.

(** ** The entry points *)

(** X15 (the pipeline stops at the ratios): [process_eeg_recording] calls
    [compute_ratios] with two arguments although the function takes one, so
    the steps up to that call never return a result, whatever follows them;
    when preprocessing, spectrum and band powers succeed the error is
    [TypeError]. *)
Theorem pipeline_stops_at_ratios
  (B : Backend) (S : Spectral) (r : nat) (seconds : option Q) (σ : store) :
  is_ok (process_eeg_recording_ratios B S r seconds σ) = false ∧
  (∀ (R : Type) (rest : gmap string (list (list (option Q))) → result R),
     is_ok (process_eeg_recording_ratios B S r seconds σ ≫= rest) = false) ∧
  (∀ clean log σ' psds freqs bp,
     process_eeg_recording B r seconds σ = Ok ((clean, log), σ') →
     compute_psd_welch S clean (5 # 10) 40 2 1 = Ok (psds, freqs) →
     compute_band_powers psds freqs None = Ok bp →
     process_eeg_recording_ratios B S r seconds σ = Raise TypeError).
Proof.
  assert (Hraise : ∃ e, process_eeg_recording_ratios B S r seconds σ = Raise e).
  { unfold process_eeg_recording_ratios.
    destruct (process_eeg_recording B r seconds σ) as [[[clean log] σ']|e];
      [|by exists e].
    rewrite bind_Ok. cbv zeta.
    destruct (compute_psd_welch S clean (5 # 10) 40 2 1) as [[psds freqs]|e];
      [|by exists e].
    rewrite bind_Ok.
    destruct (compute_band_powers psds freqs None) as [bp|e]; [|by exists e].
    by exists TypeError. }
  destruct Hraise as [e He]. split; [by rewrite He|].
  split; [intros R rest; by rewrite He|].
  intros clean log σ' psds freqs bp Hpre Hpsd Hbp.
  unfold process_eeg_recording_ratios.
  by rewrite Hpre, bind_Ok, Hpsd, bind_Ok, Hbp.
Qed.

Section BatchCounts.

Context {F R : Type} (process : F → result R).

Lemma batch_results_counts (l : list F) :
  (map (file_status process) l).*1 = l ∧
  (length (filter (fun p => is_success p.2 = true)
             (map (file_status process) l))
   + length (filter (fun p => is_failed p.2 = true)
               (map (file_status process) l))
   = length l)%nat ∧
  length (filter (fun p => is_success p.2 = true)
            (map (file_status process) l))
  = length (filter (fun f => is_ok (process f) = true) l).
Proof.
  induction l as [|f l (IH1 & IH2 & IH3)]; [done|].
  cbn [map fmap list_fmap].
  destruct (process f) as [x|e] eqn:E.
  - assert (Hst : file_status process f = (f, Success))
      by (unfold file_status; by rewrite E).
    rewrite Hst.
    rewrite (filter_cons_True (fun p => is_success p.2 = true)) by done.
    rewrite (filter_cons_False (fun p => is_failed p.2 = true)) by done.
    rewrite (filter_cons_True (fun f => is_ok (process f) = true))
      by (by rewrite E).
    cbn [length]. split; [cbn [fst]; by f_equal|]. split; [lia|by f_equal].
  - assert (Hst : file_status process f = (f, Failed e))
      by (unfold file_status; by rewrite E).
    rewrite Hst.
    rewrite (filter_cons_False (fun p => is_success p.2 = true)) by done.
    rewrite (filter_cons_True (fun p => is_failed p.2 = true)) by done.
    rewrite (filter_cons_False (fun f => is_ok (process f) = true))
      by (by rewrite E).
    cbn [length]. split; [cbn [fst]; by f_equal|]. split; [lia|exact IH3].
Qed.

End BatchCounts.

(** X16 (batch): without a file [batch_process_recordings] returns at once;
    otherwise [results] holds one entry per file, in the order of the
    files, every file is counted exactly once, as successful when its
    processing returned and as failed when it raised, and when the
    processing returns for no file the summary counts no success. *)
Theorem batch_counts_every_file
  {F R : Type} (process : F → result R) (csv_files : list F) :
  batch_process_recordings process [] = None ∧
  (csv_files ≠ [] →
   ∃ results successful failed,
     batch_process_recordings process csv_files
     = Some (results, successful, failed) ∧
     results.*1 = csv_files ∧
     (successful + failed = length csv_files)%nat ∧
     successful
     = length (filter (fun f => is_ok (process f) = true) csv_files) ∧
     ((∀ f, f ∈ csv_files → is_ok (process f) = false) →
      successful = 0%nat ∧ failed = length csv_files)).
Proof.
  split; [reflexivity|]. intros Hne.
  destruct (batch_results_counts process csv_files) as (H1 & H2 & H3).
  eexists _, _, _. split.
  { unfold batch_process_recordings. destruct csv_files; [done|reflexivity]. }
  split; [exact H1|]. split; [exact H2|]. split; [exact H3|].
  intros Hfail.
  assert (H0 : length (filter (fun f => is_ok (process f) = true) csv_files)
               = 0%nat).
  { clear -Hfail. induction csv_files as [|f l IH]; [reflexivity|].
    rewrite filter_cons_False.
    - apply IH. intros g Hg. apply Hfail. by apply list_elem_of_further.
    - rewrite (Hfail f) by apply list_elem_of_here. discriminate. }
  rewrite H0 in H3. lia.
Qed.

(** On a recording of 3073 samples, six epochs, the steps before the call succeed and
    the call raises. *)
Example pipeline_run :
  process_eeg_recording_ratios reference_backend reference_spectral 0 None
    {[0%nat := spike_recording 3073]}
  = Raise TypeError.
Proof. by vm_compute. Qed.
